(** * Scoring core of the macro dashboard (data/fetch_data.py)

    A shallow embedding of the scoring pipeline of [fetch_data.py]:
    percentile ranks, factor scores, module and overall aggregation,
    trend classification, lift/drag attribution and the 10-bucket
    histogram.

    Modelling choices:
    - Python floats are modelled by exact rationals [Q]; [round(x, n)] is
      round-half-to-even at [n] decimals on the exact value.
    - A pandas series indexed by dates is an association list of
      (day number, value) in increasing date order; [TODAY] is the
      argument [today] (a day number).
    - Exceptions raised by the code (or by numpy inside it) are the [Err]
      case of the [result] type. *)

From Stdlib Require Import ZArith QArith Qround Qabs Lqa Ascii String List Sorted Permutation Bool Lia.
Import ListNotations.

Open Scope Q_scope.

(** ** Python-level helpers *)

Inductive exn : Type :=
| IndexError
| ZeroDivisionError.

Inductive result (A : Type) : Type :=
| Ok : A -> result A
| Err : exn -> result A.
Arguments Ok {A} _.
Arguments Err {A} _.

Definition bind {A B} (m : result A) (k : A -> result B) : result B :=
  match m with
  | Ok a => k a
  | Err e => Err e
  end.

Notation "x <- m ;; k" := (bind m (fun x => k))
  (at level 61, m at next level, right associativity).

Definition Qltb (x y : Q) : bool := negb (Qle_bool y x).

Definition Qnat (n : nat) : Q := inject_Z (Z.of_nat n).

(** Python's [min(a, b)]: keeps [a] unless [b < a]. *)
Definition py_min (a b : Q) : Q := if Qltb b a then b else a.

(** Python's [max(a, b)]: keeps [a] unless [b > a]. *)
Definition py_max (a b : Q) : Q := if Qltb a b then b else a.

(** Round-half-to-even of a rational to an integer. *)
Definition round_half_even (r : Q) : Z :=
  let f := Qfloor r in
  let d := r - inject_Z f in
  if Qltb d (1 # 2) then f
  else if Qltb (1 # 2) d then (f + 1)%Z
  else if Z.even f then f else (f + 1)%Z.

(** Python's [round(x, nd)]. *)
Definition py_round (nd : nat) (x : Q) : Q :=
  let s := inject_Z (10 ^ Z.of_nat nd) in
  inject_Z (round_half_even (x * s)) / s.

Definition qsum (l : list Q) : Q := fold_right Qplus 0 l.

Definition count_if (p : Q -> bool) (l : list Q) : nat := length (filter p l).

(** Last element of a non-empty list ([s.iloc[-1]]). *)
Definition last_val (l : list Q) : Q := last l 0.

(** [s.iloc[-k]] for [1 <= k <= len s]. *)
Definition iloc_neg (k : nat) (l : list Q) : Q := nth (length l - k) l 0.

(** ** Time series *)

(** A series after [dropna()]: (day, value) pairs in increasing day order. *)
Definition series := list (Z * Q).

(** A raw series, possibly with missing values ([None] = NaN). *)
Definition raw_series := list (Z * option Q).

Definition dropna (s : raw_series) : series :=
  flat_map (fun p => match snd p with Some v => [(fst p, v)] | None => [] end) s.

(** [series[series.index >= pd.Timestamp(cutoff)]] *)
Definition since (cutoff : Z) (s : series) : series :=
  filter (fun p => Z.leb cutoff (fst p)) s.

Definition values (s : series) : list Q := map snd s.

(** ** Percentile engine *)

(** [scipy.stats.percentileofscore(a, score, kind="rank")], as implemented
    in scipy:
    [left = count(a < score); right = count(a <= score);
     plus1 = left < right; (left + right + plus1) * (50.0 / n)]. *)
Definition percentileofscore_rank (a : list Q) (score : Q) : Q :=
  let n := length a in
  let left := count_if (fun v => Qltb v score) a in
  let right := count_if (fun v => Qle_bool v score) a in
  let plus1 := if Nat.ltb left right then 1%nat else 0%nat in
  Qnat (left + right + plus1) * (50 / Qnat n).

(** [pct_rank(series, lookback_years=5)] *)
Definition pct_rank (today : Z) (s : series) : Q :=
  let cutoff := (today - 5 * 365)%Z in
  let hist := since cutoff s in
  if Nat.ltb (length hist) 2 then 50
  else
    let current := last_val (values hist) in
    percentileofscore_rank (values hist) current.

(** ** Factor scorer *)

Definition INVERT_FACTORS : list string :=
  [ "tga-deviation"; "on-rrp-buffer-risk";
    "collateral-repo-friction";
    "corridor-friction-1"; "corridor-friction-2";
    "effr-iorb-spread"; "cp-tbill-spread";
    "funding-fragmentation"; "10y-rate-volatility";
    "real-rate-level";
    "nfci"; "vix"; "vix-term-structure";
    "fx-realized-volatility"; "oil-volatility-deviation";
    "natural-gas";
    "dxy";
    "10y-breakeven" ]%string.

Definition is_invert (factor_id : string) : bool :=
  existsb (String.eqb factor_id) INVERT_FACTORS.

(** [score_from_pct(raw_pct, factor_id)] *)
Definition score_from_pct (raw_pct : Q) (factor_id : string) : Q :=
  let score := if is_invert factor_id then 100 - raw_pct else raw_pct in
  py_round 1 (py_max 0 (py_min 100 score)).

(** [get_status(score)] *)
Definition get_status (score : Q) : string :=
  if Qle_bool 66 score then "supportive"
  else if Qle_bool 33 score then "neutral"
  else "restrictive".

(** [get_velocity(series, window=7)] on a cleaned score series. *)
Definition get_velocity (s : list Q) : string :=
  let window := 7%nat in
  if Nat.ltb (length s) (window + 1) then "flat"
  else
    let now := last_val s in
    let past := iloc_neg (window + 1) s in
    let diff := now - past in
    if Qltb 2 diff then "rising"
    else if Qltb diff (-2) then "falling"
    else "flat".

(** ** numpy's percentile (default "linear" method) *)

Fixpoint insert_sorted (x : Q) (l : list Q) : list Q :=
  match l with
  | [] => [x]
  | y :: l' => if Qle_bool x y then x :: l else y :: insert_sorted x l'
  end.

Fixpoint sort_q (l : list Q) : list Q :=
  match l with
  | [] => []
  | x :: l' => insert_sorted x (sort_q l')
  end.

(** [np.percentile(a, q)]: on the sorted data, the virtual index is
    [(n - 1) * q / 100]; the result interpolates linearly between the two
    neighbouring order statistics (the last one from index [n - 1] on).
    On an empty array numpy raises [IndexError]. *)
Definition np_percentile (a : list Q) (q : Q) : result Q :=
  match a with
  | [] => Err IndexError
  | _ :: _ =>
      let s := sort_q a in
      let n := length s in
      let vi := Qnat (n - 1) * (q / 100) in
      if Qle_bool (Qnat (n - 1)) vi then Ok (last_val s)
      else
        let prev := Z.to_nat (Qfloor vi) in
        let lo := nth prev s 0 in
        let hi := nth (S prev) s 0 in
        Ok (lo + (hi - lo) * (vi - inject_Z (Qfloor vi)))
  end.

(** One entry [{"range": f"{lo}-{hi}", "freq": ...}] of the histogram. *)
Record bucket := mk_bucket { range_lo : nat; range_hi : nat; freq : nat }.

(** The body of the loop of [percentile_dist] for bucket [i]. *)
Definition dist_bucket (hist : list Q) (i : nat) : result bucket :=
  let lo := (i * 10)%nat in
  let hi := ((i + 1) * 10)%nat in
  plo <- np_percentile hist (Qnat lo) ;;
  phi <- np_percentile hist (py_min (Qnat hi) (999 # 10)) ;;
  Ok (mk_bucket lo hi
        (count_if (fun v => Qle_bool plo v && Qltb v phi) hist)).

Fixpoint map_result {A B} (f : A -> result B) (l : list A) : result (list B) :=
  match l with
  | [] => Ok []
  | x :: l' => y <- f x ;; ys <- map_result f l' ;; Ok (y :: ys)
  end.

(** [percentile_dist(series, lookback_years=5)] *)
Definition percentile_dist (today : Z) (s : series) : result (list bucket) :=
  let cutoff := (today - 5 * 365)%Z in
  let hist := values (since cutoff s) in
  map_result (dist_bucket hist) (seq 0 10).

(** ** Factors *)

(** The scoring-relevant fields of the factor dict built by [make_factor]
    (the formatted value strings and the trend chart are presentation). *)
Record factor := mk_factor {
  f_id : string;
  f_name : string;
  f_hp5y : Q;               (* "historicalPercentile5Y" *)
  f_status : string;
  f_velocity : string;
  f_percentileData : list bucket;
  f_isExtra : bool
}.

(** The score series of a factor: each value of [hist] ranked against the
    whole of [hist] ([hist.apply(lambda x: ...)]). *)
Definition score_series_of (hist : series) (factor_id : string) : series :=
  map (fun p => (fst p,
         score_from_pct (percentileofscore_rank (values hist) (snd p)) factor_id))
      hist.

(** [make_factor(factor_id, name, series, ..., is_extra)]; [None] is the
    Python [None] returned for short series. *)
Definition make_factor (today : Z) (factor_id name : string) (rs : raw_series)
    (is_extra : bool) : result (option factor) :=
  let s := dropna rs in
  if Nat.ltb (length s) 10 then Ok None
  else
    let raw_pct := pct_rank today s in
    let score_val := score_from_pct raw_pct factor_id in
    let status := get_status score_val in
    let cutoff := (today - (365 * 5 + 90))%Z in
    let hist := since cutoff s in
    let score_series := score_series_of hist factor_id in
    let velocity := get_velocity (values score_series) in
    pd <- percentile_dist today s ;;
    Ok (Some (mk_factor factor_id name (py_round 1 raw_pct) status velocity
                pd is_extra)).

(** [make_score_series(series, factor_id)] *)
Definition make_score_series (today : Z) (rs : raw_series) (factor_id : string)
    : series :=
  let s := dropna rs in
  let cutoff := (today - (365 * 5 + 90))%Z in
  let hist := since cutoff s in
  if Nat.ltb (length hist) 5 then []
  else score_series_of hist factor_id.

(** ** Dicts keyed by strings (insertion-ordered association lists) *)

Fixpoint dict_get {V} (d : list (string * V)) (k : string) : option V :=
  match d with
  | [] => None
  | (k', v) :: d' => if String.eqb k k' then Some v else dict_get d' k
  end.

(** [d.get(k, default)] *)
Definition dict_get_default {V} (d : list (string * V)) (k : string) (dflt : V) : V :=
  match dict_get d k with Some v => v | None => dflt end.

(** [d[k] = v]: an existing key keeps its position. *)
Fixpoint dict_set {V} (d : list (string * V)) (k : string) (v : V) : list (string * V) :=
  match d with
  | [] => [(k, v)]
  | (k', v') :: d' => if String.eqb k k' then (k', v) :: d' else (k', v') :: dict_set d' k v
  end.

(** [d.update(e)] *)
Definition dict_update {V} (d e : list (string * V)) : list (string * V) :=
  fold_left (fun acc kv => dict_set acc (fst kv) (snd kv)) e d.

Definition dict_mem {V} (d : list (string * V)) (k : string) : bool :=
  match dict_get d k with Some _ => true | None => false end.

(** ** Data frames: [pd.concat(cols, axis=1)] then a weighted row sum *)

Fixpoint insert_date (d : Z) (l : list Z) : list Z :=
  match l with
  | [] => [d]
  | d' :: l' => if Z.ltb d d' then d :: l
                else if Z.eqb d d' then l
                else d' :: insert_date d l'
  end.

(** The outer-joined (sorted) date index of the concatenated frame. *)
Definition frame_dates (cols : list series) : list Z :=
  fold_right (fun s acc => fold_right insert_date acc (map fst s)) [] cols.

Fixpoint lookup_date (d : Z) (s : series) : option Q :=
  match s with
  | [] => None
  | (d', v) :: s' => if Z.eqb d d' then Some v else lookup_date d s'
  end.

(** [(df * weights).sum(axis=1)]: on each date, the sum of [w * v] over the
    columns that have a value on that date (NaN cells are skipped). *)
Definition frame_wsum (cols : list series) (ws : list Q) : series :=
  map (fun d =>
         (d, qsum (map (fun cw => match lookup_date d (fst cw) with
                                  | Some v => v * snd cw
                                  | None => 0
                                  end) (combine cols ws))))
      (frame_dates cols).

(** [s * w] for a series. *)
Definition series_scale (s : series) (w : Q) : series :=
  map (fun p => (fst p, snd p * w)) s.

(** [s.tail(n)] *)
Definition lastn {A} (n : nat) (l : list A) : list A := skipn (length l - n) l.

(** ** Module aggregator *)

(** One element of [factor_specs]: [(fid, fname, fseries, fextra)]
    (the format and bps flags only affect the formatted strings). *)
Definition factor_spec := (string * string * raw_series * bool)%type.

Record module := mk_module {
  m_slug : string;
  m_name : string;
  m_score : Q;
  m_prevScore : Q;
  m_sevenDayChangePct : Q;
  m_trendDirection : string;
  m_percentile5Y : Q;
  m_factors : list factor
}.

(** The loop of [build_module_obj] over [factor_specs]. *)
Fixpoint build_factors (today : Z) (specs : list factor_spec)
    (factors : list factor) (fss : list (string * series))
    : result (list factor * list (string * series)) :=
  match specs with
  | [] => Ok (factors, fss)
  | (fid, fname, fseries, fextra) :: specs' =>
      f <- make_factor today fid fname fseries fextra ;;
      match f with
      | Some f =>
          build_factors today specs' (factors ++ [f])
            (dict_set fss fid (make_score_series today fseries fid))
      | None => build_factors today specs' factors fss
      end
  end.

Definition scored_of (factors : list factor) : list factor :=
  filter (fun f => negb (f_isExtra f)) factors.

(** Lines 463-473 of [build_module_obj]: the module score. *)
Definition module_score (fw : list (string * Q)) (scored : list factor) : result Q :=
  let n := length scored in
  let scored_scores := map (fun f => score_from_pct (f_hp5y f) (f_id f)) scored in
  let scored_weights := map (fun f => dict_get_default fw (f_id f) (1 / Qnat n)) scored in
  let w_total := qsum scored_weights in
  if Qeq_bool w_total 0 then Err ZeroDivisionError
  else Ok (py_round 1 (qsum (map (fun sw => fst sw * snd sw)
                                 (combine scored_scores scored_weights)) / w_total)).

(** The weighted score history of the scored factors of a module with a
    non-empty history; [weights / weights.sum()] is numpy's division,
    which does not raise (a zero sum makes every row sum 0, as [x / 0 = 0]
    does here). *)
Definition module_history (fw : list (string * Q)) (scored_ids : list string)
    (fss : list (string * series)) : series :=
  let valid_ids := filter (fun fid => match dict_get fss fid with
                                      | Some ss => negb (Nat.eqb (length ss) 0)
                                      | None => false
                                      end) scored_ids in
  let ss_list := map (fun fid => dict_get_default fss fid []) valid_ids in
  match ss_list with
  | [] => []
  | _ :: _ =>
      let weights := map (fun fid => dict_get_default fw fid (1 / Qnat (length valid_ids)))
                         valid_ids in
      let wsum := qsum weights in
      frame_wsum ss_list (map (fun w => w / wsum) weights)
  end.

(** Module trend direction (lines 502-508). *)
Definition module_trend_dir (ts : list Q) : string :=
  let recent := lastn 3 ts in
  if Nat.leb 2 (length recent) && Qltb (hd 0 recent + 1) (last_val recent)
  then "improving"
  else if Nat.leb 2 (length recent) && Qltb (last_val recent) (hd 0 recent - 1)
  then "declining"
  else "stable".

(** [build_module_obj(slug, name, factor_specs)] with the factor-weight
    table [FACTOR_WEIGHTS] passed as [fwt]; returns
    [(module_dict, {factor_id: score_series})]. *)
Definition build_module_obj (today : Z) (fwt : list (string * list (string * Q)))
    (slug name : string) (specs : list factor_spec)
    : result (option module * list (string * series)) :=
  fr <- build_factors today specs [] [] ;;
  let (factors, factor_score_series) := fr in
  let scored := scored_of factors in
  match scored with
  | [] => Ok (None, [])
  | _ :: _ =>
      let fw := dict_get_default fwt slug [] in
      ms <- module_score fw scored ;;
      let mod_score_ts := module_history fw (map f_id scored) factor_score_series in
      let ts := values mod_score_ts in
      let mod_pct := if Nat.ltb 10 (length ts)
                     then py_round 1 (pct_rank today mod_score_ts) else 50 in
      let prev_score := if Nat.ltb 7 (length ts)
                        then py_round 1 (iloc_neg 8 ts) else ms in
      let change_pct := py_round 2 ((ms - prev_score) / py_max prev_score (1 # 100) * 100) in
      let trend_dir := module_trend_dir ts in
      Ok (Some (mk_module slug name ms prev_score change_pct trend_dir mod_pct factors),
          factor_score_series)
  end.

(** ** Configuration *)

Definition MODULE_WEIGHTS : list (string * Q) :=
  map (fun k => (k, 1 / 7))
    ["liquidity"; "funding"; "treasury"; "rates"; "credit"; "risk"; "external"]%string.

Definition FACTOR_WEIGHTS : list (string * list (string * Q)) :=
  [ ("liquidity", [ ("fed-net-liquidity", 30 # 100); ("bank-reserves", 20 # 100);
                    ("net-liquidity-momentum", 25 # 100); ("tga-deviation", 15 # 100);
                    ("on-rrp-buffer-risk", 10 # 100) ]);
    ("funding", [ ("collateral-repo-friction", 18 # 100); ("corridor-friction-1", 22 # 100);
                  ("corridor-friction-2", 18 # 100); ("effr-iorb-spread", 12 # 100);
                  ("cp-tbill-spread", 20 # 100); ("funding-fragmentation", 10 # 100) ]);
    ("treasury", [ ("30y-10y-term-premium", 35 # 100); ("10y-rate-volatility", 35 # 100);
                   ("curve-curvature", 30 # 100) ]);
    ("rates", [ ("real-rate-level", 50 # 100); ("real-curve", 15 # 100);
                ("10y-breakeven", 35 # 100) ]);
    ("credit", [ ("nfci", 40 # 100); ("hy-credit", 25 # 100);
                 ("ig-credit", 15 # 100); ("regional-banks-spy", 20 # 100) ]);
    ("risk", [ ("vix", 30 # 100); ("vix-term-structure", 25 # 100);
               ("risk-vs-safe", 25 # 100); ("high-beta-preference", 20 # 100) ]);
    ("external", [ ("dxy", 25 # 100); ("fx-realized-volatility", 20 # 100);
                   ("wti-oil", 20 # 100); ("oil-volatility-deviation", 25 # 100);
                   ("natural-gas", 10 # 100) ]) ]%string.

(** [all_specs]: the module list of the code, with the factor series
    given by [src] (keyed by factor id; the derivations that produce them
    are outside the scoring core). *)
Definition all_specs (src : string -> raw_series)
    : list (string * (string * list factor_spec)) :=
  let sp (fid name : string) (extra : bool) : factor_spec := (fid, name, src fid, extra) in
  [ ("liquidity", ("Liquidity",
      [ sp "fed-net-liquidity" "Fed Net Liquidity" false;
        sp "bank-reserves" "Bank Reserves" false;
        sp "net-liquidity-momentum" "Net Liquidity Momentum (13W)" false;
        sp "tga-deviation" "TGA Deviation" false;
        sp "on-rrp-buffer-risk" "ON RRP Buffer Risk" false;
        sp "fed-total-assets" "Fed Total Assets" true;
        sp "treasury-general-account" "Treasury General Account" true;
        sp "on-rrp" "ON RRP" true ]));
    ("funding", ("Funding",
      [ sp "collateral-repo-friction" "Collateral/Repo Friction" false;
        sp "corridor-friction-1" "Corridor Friction 1" false;
        sp "corridor-friction-2" "Corridor Friction 2" false;
        sp "effr-iorb-spread" "EFFR−IORB Spread" false;
        sp "cp-tbill-spread" "CP-TBill Spread" false;
        sp "funding-fragmentation" "Funding Fragmentation (21D)" false;
        sp "effr" "EFFR" true;
        sp "sofr" "SOFR" true;
        sp "iorb" "IORB" true;
        sp "on-rrp-award-rate" "ON RRP Award Rate" true;
        sp "obfr-rate" "OBFR Rate" true ]));
    ("treasury", ("Treasury",
      [ sp "30y-10y-term-premium" "30Y-10Y Term Premium" false;
        sp "10y-rate-volatility" "10Y Rate Volatility (21D)" false;
        sp "curve-curvature" "Curve Curvature (Abs)" false;
        sp "10y-2y-spread" "10Y-2Y Spread" true;
        sp "10y-3m-spread" "10Y-3M Spread" true;
        sp "10y-nominal-rate" "10Y Nominal Rate" true;
        sp "30y-rate" "30Y Rate" true;
        sp "2y-rate" "2Y Rate" true ]));
    ("rates", ("Rates",
      [ sp "real-rate-level" "Real Rate Level" false;
        sp "real-curve" "Real Curve (10Y-5Y)" false;
        sp "10y-breakeven" "10Y Breakeven" false;
        sp "5y-real-rate" "5Y Real Rate" true;
        sp "10y-real-rate" "10Y Real Rate" true ]));
    ("credit", ("Credit",
      [ sp "nfci" "NFCI" false;
        sp "hy-credit" "HY Credit" false;
        sp "ig-credit" "IG Credit" false;
        sp "regional-banks-spy" "Regional Banks vs SPY" false ]));
    ("risk", ("Risk",
      [ sp "vix" "VIX" false;
        sp "vix-term-structure" "VIX Term Structure" false;
        sp "risk-vs-safe" "Risk vs Safe" false;
        sp "high-beta-preference" "High-Beta Preference" false;
        sp "vix-3m" "VIX 3M" true ]));
    ("external", ("External",
      [ sp "dxy" "US Dollar Index (DXY)" false;
        sp "fx-realized-volatility" "FX Realized Volatility" false;
        sp "wti-oil" "WTI Oil" false;
        sp "oil-volatility-deviation" "Oil Volatility Deviation" false;
        sp "natural-gas" "Natural Gas" false ])) ]%string.

(** ** Index aggregator *)

(** The loop building [modules] and [all_factor_score_series]. *)
Fixpoint build_modules (today : Z) (fwt : list (string * list (string * Q)))
    (specs : list (string * (string * list factor_spec)))
    (modules : list (string * module)) (afss : list (string * series))
    : result (list (string * module) * list (string * series)) :=
  match specs with
  | [] => Ok (modules, afss)
  | (slug, (mname, fspecs)) :: specs' =>
      r <- build_module_obj today fwt slug mname fspecs ;;
      match r with
      | (Some m, fss) => build_modules today fwt specs' (dict_set modules slug m)
                           (dict_update afss fss)
      | (None, _) => build_modules today fwt specs' modules afss
      end
  end.

(** The present modules with their weights, in [MODULE_WEIGHTS] order
    ([for slug, w in MODULE_WEIGHTS.items() if slug in modules]). *)
Definition present (mw : list (string * Q)) (modules : list (string * module))
    : list (string * Q * module) :=
  flat_map (fun sw => match dict_get modules (fst sw) with
                      | Some m => [(fst sw, snd sw, m)]
                      | None => []
                      end) mw.

(** [overall_score] (lines 616-620). *)
Definition overall_score (mw : list (string * Q)) (modules : list (string * module)) : Q :=
  py_round 1 (qsum (map (fun x => m_score (snd x) * snd (fst x)) (present mw modules))).

(** [prev_overall] (lines 623-627). *)
Definition prev_overall (mw : list (string * Q)) (modules : list (string * module)) : Q :=
  py_round 1 (qsum (map (fun x => m_prevScore (snd x) * snd (fst x)) (present mw modules))).

Definition scored_ids_of (m : module) : list string := map f_id (scored_of (m_factors m)).

(** [overall_ts] (lines 630-649). *)
Definition overall_ts (mw : list (string * Q)) (fwt : list (string * list (string * Q)))
    (modules : list (string * module)) (afss : list (string * series)) : series :=
  let parts :=
    flat_map (fun x =>
      let '(slug, w, m) := x in
      match module_history (dict_get_default fwt slug []) (scored_ids_of m) afss with
      | [] => []
      | ts => [series_scale ts w]
      end) (present mw modules) in
  match parts with
  | [] => []
  | _ :: _ => frame_wsum parts (map (fun _ => 1) parts)
  end.

(** Overall trend direction (lines 657-663). *)
Definition overall_trend_dir (ts : list Q) : string :=
  let rec_ := lastn 3 ts in
  if Nat.leb 2 (length rec_) && Qltb (hd 0 rec_ + (1 # 2)) (last_val rec_)
  then "improving"
  else if Nat.leb 2 (length rec_) && Qltb (last_val rec_) (hd 0 rec_ - (1 # 2))
  then "declining"
  else "stable".

(** ** Lift / drag attribution *)

(** The contributions [contrib] of lines 670-686, before rounding, with the
    factor names. *)
Definition lift_drag_contribs (mw : list (string * Q)) (fwt : list (string * list (string * Q)))
    (modules : list (string * module)) (afss : list (string * series))
    : list (string * Q) :=
  flat_map (fun x =>
    let '(slug, w, m) := x in
    let fw := dict_get_default fwt slug [] in
    let scored := scored_of (m_factors m) in
    flat_map (fun f =>
      match dict_get afss (f_id f) with
      | None => []
      | Some ss =>
          let v := values ss in
          if Nat.ltb (length v) 9 then []
          else
            let factor_w := dict_get_default fw (f_id f) (1 / Qnat (length scored)) * w in
            let score_now := last_val v in
            let score_7d := if Nat.ltb 8 (length v) then iloc_neg 8 v else score_now in
            [(f_name f, (score_now - score_7d) * factor_w)]
      end) scored) (present mw modules).

(** [{"name": ..., "pts": round(contrib, 2)}] *)
Definition lift_drag (mw : list (string * Q)) (fwt : list (string * list (string * Q)))
    (modules : list (string * module)) (afss : list (string * series))
    : list (string * Q) :=
  map (fun nc => (fst nc, py_round 2 (snd nc))) (lift_drag_contribs mw fwt modules afss).

(** [lift_drag.sort(key=lambda x: x["pts"], reverse=True)] (stable). *)
Fixpoint insert_desc (x : string * Q) (l : list (string * Q)) : list (string * Q) :=
  match l with
  | [] => [x]
  | y :: l' => if Qltb (snd x) (snd y) then y :: insert_desc x l' else x :: l
  end.

Definition sort_desc (l : list (string * Q)) : list (string * Q) :=
  fold_right insert_desc [] l.

(** ** The whole run *)

Record dashboard := mk_dashboard {
  d_score : Q;
  d_prevScore : Q;
  d_trendDirection : string;
  d_percentile5Y : Q;
  d_history : series;        (* the series behind "trendData" *)
  d_modules : list (string * module);
  d_scoreLift : list (string * Q);
  d_scoreDrag : list (string * Q)
}.

Definition run_with (today : Z) (mw : list (string * Q))
    (fwt : list (string * list (string * Q)))
    (specs : list (string * (string * list factor_spec))) : result dashboard :=
  r <- build_modules today fwt specs [] [] ;;
  let (modules, afss) := r in
  let score := overall_score mw modules in
  let prev := prev_overall mw modules in
  let ots := overall_ts mw fwt modules afss in
  let opct := if Nat.ltb 10 (length ots) then py_round 1 (pct_rank today ots) else 50 in
  let tdir := overall_trend_dir (values ots) in
  let ld := sort_desc (lift_drag mw fwt modules afss) in
  Ok (mk_dashboard score prev tdir opct ots modules
        (filter (fun i => Qltb 0 (snd i)) ld)
        (filter (fun i => Qltb (snd i) 0) ld)).

(** One run of the script on the factor series [src]. *)
Definition run (today : Z) (src : string -> raw_series) : result dashboard :=
  run_with today MODULE_WEIGHTS FACTOR_WEIGHTS (all_specs src).

(** ** Readings of the spec's formulas (compared with the code above) *)

Definition count_lt (a : list Q) (x : Q) : nat := count_if (fun v => Qltb v x) a.
Definition count_le (a : list Q) (x : Q) : nat := count_if (fun v => Qle_bool v x) a.

(** The spec's percentile: [((c_lt + c_le) / (2n)) * 100]. *)
Definition spec_percentile_rank (a : list Q) (x : Q) : Q :=
  Qnat (count_lt a x + count_le a x) / (2 * Qnat (length a)) * 100.

(** The spec's reading of the trend rule: the value three observations
    before the most recent against the most recent, threshold 1. *)
Definition spec_trend_dir (ts : list Q) : string :=
  if Nat.ltb (length ts) 4 then "stable"
  else
    let now := last_val ts in
    let before := iloc_neg 4 ts in
    if Qltb (before + 1) now then "improving"
    else if Qltb now (before - 1) then "declining"
    else "stable".

(** The amended trend rule, following its words: compare the most recent
    value with the value two observations before it (with exactly two
    values, the earlier one; with fewer, stable), a rise of more than
    [thr] being improving and a fall of more than [thr] declining. *)
Definition amended_trend_dir (thr : Q) (ts : list Q) : string :=
  let cmp (before now : Q) :=
    if Qltb (before + thr) now then "improving"%string
    else if Qltb now (before - thr) then "declining"%string else "stable"%string in
  match rev ts with
  | now :: _ :: before :: _ => cmp before now
  | [now; before] => cmp before now
  | _ => "stable"%string
  end.

(** The claimed overall score: the weighted average of the present modules'
    scores with the module weights renormalized over the present modules. *)
Definition spec_overall_score (mw : list (string * Q)) (modules : list (string * module)) : Q :=
  let ps := present mw modules in
  py_round 1 (qsum (map (fun x => m_score (snd x) * snd (fst x)) ps)
              / qsum (map (fun x => snd (fst x)) ps)).

(** The factor scores and raw weights used by [module_score]. *)
Definition factor_scores (scored : list factor) : list Q :=
  map (fun f => score_from_pct (f_hp5y f) (f_id f)) scored.

Definition module_raw_weights (fw : list (string * Q)) (scored : list factor) : list Q :=
  map (fun f => dict_get_default fw (f_id f) (1 / Qnat (length scored))) scored.

(** A factor-weight table with every weight multiplied by [c]. *)
Definition scale_weights (c : Q) (fw : list (string * Q)) : list (string * Q) :=
  map (fun kv => (fst kv, c * snd kv)) fw.

(** The claimed weighting with residual shares: configured weights as
    given, the weight left over by the configured factors
    ([1 - sum of their weights]) split equally among the present factors
    missing from the table, then all renormalized to sum to 1. *)
Definition residual_weights (fw : list (string * Q)) (scored : list factor) : list Q :=
  let configured := filter (fun f => dict_mem fw (f_id f)) scored in
  let k := (length scored - length configured)%nat in
  let resid := (1 - qsum (map (fun f => dict_get_default fw (f_id f) 0) configured)) / Qnat k in
  map (fun f => dict_get_default fw (f_id f) resid) scored.

Definition spec_module_score_residual (fw : list (string * Q)) (scored : list factor) : Q :=
  let ws := residual_weights fw scored in
  let wt := qsum ws in
  py_round 1 (qsum (map (fun sw => fst sw * (snd sw / wt)) (combine (factor_scores scored) ws))).

(** Three scored factors with percentiles 100, 0 and 0. *)
Definition fa : factor := mk_factor "a" "A" 100 "supportive" "flat" [] false.
Definition fb : factor := mk_factor "b" "B" 0 "restrictive" "flat" [] false.
Definition fc : factor := mk_factor "c" "C" 0 "restrictive" "flat" [] false.

(** The value at position [k] of the weighted history of a module's
    scored factors [ids], with weights [fw] renormalized over [ids]
    (used to state the attribution lemma). *)
Definition module_value_at (fw : list (string * Q)) (ids : list string)
    (afss : list (string * series)) (k : nat) : Q :=
  let raw := map (fun fid => dict_get_default fw fid (1 / Qnat (length ids))) ids in
  qsum (map (fun fid => nth k (values (dict_get_default afss fid [])) 0
                        * (dict_get_default fw fid (1 / Qnat (length ids)) / qsum raw)) ids).

(** ** Presentation helpers *)

Section Presentation.
Local Open Scope string_scope.

(** [safe_last(s, fallback)]: the last non-NaN value of [s], else
    [fallback] ([None] stands for NaN, the default fallback). *)
Definition safe_last (s : raw_series) (fallback : option Q) : option Q :=
  match dropna s with
  | [] => fallback
  | _ :: _ => Some (last_val (values (dropna s)))
  end.

Fixpoint digits_of (fuel : nat) (n : Z) (acc : string) : string :=
  match fuel with
  | O => acc
  | S fuel' =>
      let acc' := String (ascii_of_nat (48 + Z.to_nat (n mod 10))) acc in
      if (n <? 10)%Z then acc' else digits_of fuel' (n / 10) acc'
  end.

(** [str(n)] for [n >= 0]. *)
Definition z_digits (n : Z) : string := digits_of (S (Z.to_nat (Z.log2 n))) n EmptyString.

Fixpoint zeros (k : nat) : string :=
  match k with
  | O => EmptyString
  | S k' => String "0" (zeros k')
  end.

(** Python's format spec [+.{nd}f]: the sign of [x] (always written), then
    [|x|] rounded half-to-even to [nd] decimals. *)
Definition fmt_signed_fixed (nd : nat) (x : Q) : string :=
  let sign := if Qltb x 0 then "-" else "+" in
  let r := round_half_even (Qabs x * inject_Z (10 ^ Z.of_nat nd)) in
  let ds := z_digits r in
  let padded := zeros (nd + 1 - String.length ds) ++ ds in
  let k := (String.length padded - nd)%nat in
  match nd with
  | O => sign ++ padded
  | S _ => sign ++ substring 0 k padded ++ "." ++ substring k nd padded
  end.

(** [fmt_change(val, prev, unit, bps)]; [None] stands for NaN. *)
Definition fmt_change (val prev : option Q) (unit : string) (bps : bool) : string * string :=
  match val, prev with
  | Some v, Some p =>
      let diff := v - p in
      let direction := if Qltb 0 diff then "up" else if Qltb diff 0 then "down" else "flat" in
      let arrow := if Qltb 0 diff then "↗" else if Qltb diff 0 then "↘" else "→" in
      if bps then (arrow ++ " " ++ fmt_signed_fixed 0 (diff * 100) ++ " bps", direction)
      else (arrow ++ " " ++ fmt_signed_fixed 2 diff ++ unit, direction)
  | _, _ => ("—", "flat")
  end.

(** [ds[i]] with Python's negative indexing ([-1] is the last element). *)
Definition z_at (ds : list Z) (i : Z) : Z :=
  nth (Z.to_nat (if (i <? 0)%Z then Z.of_nat (length ds) + i else i)) ds 0%Z.

(** [get_indexer([t], method="pad")]: the last position whose date is at
    most [t] on a sorted index, or [-1]. *)
Fixpoint pad_from (i : Z) (ds : list Z) (t : Z) (best : Z) : Z :=
  match ds with
  | [] => best
  | d :: ds' => if (d <=? t)%Z then pad_from (i + 1) ds' t i else best
  end.

(** [get_indexer([t], method="backfill")]: the first position whose date is
    at least [t], or [-1]. *)
Fixpoint bfill_from (i : Z) (ds : list Z) (t : Z) : Z :=
  match ds with
  | [] => (-1)%Z
  | d :: ds' => if (t <=? d)%Z then i else bfill_from (i + 1) ds' t
  end.

(** [index.get_indexer([t], method="nearest")[0]] on an increasing index
    (pandas' [_get_nearest_indexer]: the left match unless the right one is
    at least as close; distances taken with numpy's [take], so [-1] reads
    the last element). *)
Definition get_nearest (ds : list Z) (t : Z) : Z :=
  let l := pad_from 0 ds t (-1) in
  let r := bfill_from 0 ds t in
  let ld := Z.abs (z_at ds l - t) in
  let rd := Z.abs (z_at ds r - t) in
  if (ld <? rd)%Z || (r =? -1)%Z then l else r.

(** Lines 384-388 and 410 of [make_factor]: the 7-day change strings of a
    cleaned series. *)
Definition seven_day_change (s : series) (change_bps : bool) : string * string :=
  let current := last_val (values s) in
  let ds := map fst s in
  let past_idx := get_nearest ds (last ds 0%Z - 7) in
  let past_val := nth (Z.to_nat (Z.max 0 past_idx)) (values s) 0 in
  fmt_change (Some current) (Some past_val) "%" change_bps.

(** The (year, month, day) of a day number (days since 1970-01-01, the
    epoch of pandas' timestamps), in the proleptic Gregorian calendar. *)
Definition civil_from_days (z0 : Z) : Z * Z * Z :=
  let z := (z0 + 719468)%Z in
  let era := (z / 146097)%Z in
  let doe := (z - era * 146097)%Z in
  let yoe := ((doe - doe / 1460 + doe / 36524 - doe / 146096) / 365)%Z in
  let doy := (doe - (365 * yoe + yoe / 4 - yoe / 100))%Z in
  let mp := ((5 * doy + 2) / 153)%Z in
  let d := (doy - (153 * mp + 2) / 5 + 1)%Z in
  let m := if (mp <? 10)%Z then (mp + 3)%Z else (mp - 9)%Z in
  let y := (yoe + era * 400 + (if (m <=? 2)%Z then 1 else 0))%Z in
  (y, m, d).

(** [pd.Timestamp(dt).strftime("%-m/%-d")] *)
Definition fmt_md (day : Z) : string :=
  let '(_, m, d) := civil_from_days day in
  z_digits m ++ "/" ++ z_digits d.

(** [build_trend_data(series, days)]: [{"date", "value"}] pairs. *)
Definition build_trend_data (s : raw_series) (days : nat) : list (string * Q) :=
  map (fun p => (fmt_md (fst p), py_round 4 (snd p))) (lastn days (dropna s)).

(** [build_score_trend(score_series, days)] *)
Definition build_score_trend (s : series) (days : nat) : list (string * Q) :=
  build_trend_data (map (fun p => (fst p, Some (snd p))) s) days.

End Presentation.

(** ** Concrete inputs *)

(** A raw series of consecutive daily observations from day [start]. *)
Definition mk_raw (start : Z) (vs : list Q) : raw_series :=
  combine (map (fun i => (start + Z.of_nat i)%Z) (seq 0 (length vs))) (map Some vs).

Definition today_ex : Z := 20000.

(** Ten daily observations, all older than the five-year cutoff
    ([today - 1825]) but younger than [START_RAW] ([today - 2025]): a
    series that stopped being published. *)
Definition stale_series : raw_series :=
  mk_raw (today_ex - 1900) [1; 2; 3; 4; 5; 6; 7; 8; 9; 10].

(** Only the VIX series has data, and it is stale. *)
Definition src_stale_vix (fid : string) : raw_series :=
  if String.eqb fid "vix" then stale_series else [].

(** Ten daily observations 1, ..., 10 ending today. *)
Definition recent_series : raw_series :=
  mk_raw (today_ex - 9) [1; 2; 3; 4; 5; 6; 7; 8; 9; 10].

Definition external_ids : list string :=
  ["dxy"; "fx-realized-volatility"; "wti-oil"; "oil-volatility-deviation"; "natural-gas"]%string.

(** Every factor series has twelve recent observations, except those of
    the external module, which failed to load (empty series). *)
Definition src_no_external (fid : string) : raw_series :=
  if existsb (String.eqb fid) external_ids then []
  else mk_raw (today_ex - 20) [3; 1; 4; 1; 5; 9; 2; 6; 5; 3; 5; 8].

(** Every factor series has fourteen daily observations: nine inside the
    history window ([today - 1915] on) but before the five-year cutoff,
    and five after it. *)
Definition src_window_gap (fid : string) : raw_series :=
  mk_raw (today_ex - 1834) [100; 101; 102; 103; 104; 105; 106; 107; 108; 1; 2; 3; 4; 5].

(** Three factor specs: a scored factor with ten observations, one with
    no data, and an extra factor with ten observations. *)
Definition module_specs_ex : list factor_spec :=
  [("a", "A", recent_series, false); ("b", "B", [], false); ("c", "C", recent_series, true)]%string.

(** A module whose only factor with ten observations is an extra. *)
Definition extras_only_specs_ex : list factor_spec :=
  [("c", "C", recent_series, true); ("b", "B", [], false)]%string.

(** Two factors of the liquidity module with fifteen recent daily
    observations each, and an extra. *)
Definition liq_series_1 : raw_series :=
  mk_raw (today_ex - 14) [3; 1; 4; 1; 5; 9; 2; 6; 5; 3; 5; 8; 9; 7; 9].

Definition liq_series_2 : raw_series :=
  mk_raw (today_ex - 14) [9; 8; 8; 7; 6; 5; 5; 4; 3; 3; 2; 2; 1; 1; 2].

Definition liquidity_specs_ex : list factor_spec :=
  [("fed-net-liquidity", "Fed Net Liquidity", liq_series_1, false);
   ("bank-reserves", "Bank Reserves", liq_series_2, false);
   ("on-rrp", "ON RRP", liq_series_1, true)]%string.

(** A run state with one present module, [liquidity], whose two scored
    factors [a] and [b] have score histories on the days 1 to 9. *)
Definition ld_dates_ex : list Z := [1; 2; 3; 4; 5; 6; 7; 8; 9]%Z.

Definition ld_modules_ex : list (string * module) :=
  [("liquidity", mk_module "liquidity" "Liquidity" 50 50 0 "stable" 50 [fa; fb])]%string.

Definition ld_afss_ex : list (string * series) :=
  [("a", combine ld_dates_ex [10; 20; 30; 40; 50; 60; 70; 80; 90]);
   ("b", combine ld_dates_ex [60; 55; 50; 45; 40; 35; 30; 25; 35])]%string.

(** ** General lemmas *)

Lemma Qltb_iff (x y : Q) : Qltb x y = true <-> x < y.
Proof.
  unfold Qltb. rewrite negb_true_iff.
  split; intro H.
  - apply Qnot_le_lt. intro H'. apply Qle_bool_iff in H'. congruence.
  - destruct (Qle_bool y x) eqn:E; [|reflexivity].
    apply Qle_bool_iff in E. exfalso. apply (Qlt_not_le _ _ H E).
Qed.

Lemma Qltb_false (x y : Q) : Qltb x y = false <-> y <= x.
Proof.
  unfold Qltb. rewrite negb_false_iff. apply Qle_bool_iff.
Qed.

Lemma Qfloor_comp (x y : Q) : x == y -> Qfloor x = Qfloor y.
Proof.
  intro H. apply Z.le_antisymm; apply Qfloor_resp_le; rewrite H; apply Qle_refl.
Qed.

Lemma Qle_bool_comp (x x' y y' : Q) : x == x' -> y == y' -> Qle_bool x y = Qle_bool x' y'.
Proof.
  intros Hx Hy. destruct (Qle_bool x y) eqn:E1, (Qle_bool x' y') eqn:E2; try reflexivity.
  - apply Qle_bool_iff in E1. rewrite Hx, Hy in E1. apply Qle_bool_iff in E1. congruence.
  - apply Qle_bool_iff in E2. rewrite <- Hx, <- Hy in E2. apply Qle_bool_iff in E2. congruence.
Qed.

Lemma Qltb_comp (x x' y y' : Q) : x == x' -> y == y' -> Qltb x y = Qltb x' y'.
Proof. intros Hx Hy. unfold Qltb. rewrite (Qle_bool_comp y y' x x'); auto. Qed.

Lemma round_half_even_comp (x y : Q) : x == y -> round_half_even x = round_half_even y.
Proof.
  intro H. unfold round_half_even. rewrite (Qfloor_comp x y H).
  rewrite (Qltb_comp (x - inject_Z (Qfloor y)) (y - inject_Z (Qfloor y)) (1 # 2) (1 # 2))
    by (try rewrite H; reflexivity).
  rewrite (Qltb_comp (1 # 2) (1 # 2) (x - inject_Z (Qfloor y)) (y - inject_Z (Qfloor y)))
    by (try rewrite H; reflexivity).
  reflexivity.
Qed.

Lemma py_round_comp (nd : nat) (x y : Q) : x == y -> py_round nd x = py_round nd y.
Proof.
  intro H. unfold py_round.
  rewrite (round_half_even_comp (x * inject_Z (10 ^ Z.of_nat nd))
                                (y * inject_Z (10 ^ Z.of_nat nd))) by (rewrite H; reflexivity).
  reflexivity.
Qed.

(** Rounding keeps a value inside an integer range. *)
Lemma round_half_even_bounds (r : Q) (M : Z) :
  0 <= r -> r <= inject_Z M -> (0 <= round_half_even r <= M)%Z.
Proof.
  intros H0 HM.
  assert (Hf0 : (0 <= Qfloor r)%Z).
  { change 0%Z with (Qfloor (inject_Z 0)). apply Qfloor_resp_le. exact H0. }
  assert (HfM : (Qfloor r <= M)%Z).
  { rewrite <- (Qfloor_Z M). apply Qfloor_resp_le. exact HM. }
  assert (Hup : (1 # 2) <= r - inject_Z (Qfloor r) -> (Qfloor r + 1 <= M)%Z).
  { intro Hd. destruct (Z.eq_dec (Qfloor r) M) as [E|E]; [|lia].
    exfalso. rewrite E in Hd. lra. }
  unfold round_half_even.
  destruct (Qltb (r - inject_Z (Qfloor r)) (1 # 2)) eqn:E1; [lia|].
  apply Qltb_false in E1. specialize (Hup E1).
  destruct (Qltb (1 # 2) (r - inject_Z (Qfloor r))); [lia|].
  destruct (Z.even (Qfloor r)); lia.
Qed.

Lemma clamp_bounds (s : Q) : 0 <= py_max 0 (py_min 100 s) <= 100.
Proof.
  unfold py_max, py_min.
  destruct (Qltb s 100) eqn:E1; [apply Qltb_iff in E1 | apply Qltb_false in E1];
  [destruct (Qltb 0 s) eqn:E2 | destruct (Qltb 0 100) eqn:E2];
  first [apply Qltb_iff in E2 | apply Qltb_false in E2]; lra.
Qed.

Lemma clamp_id (s : Q) : 0 <= s -> s <= 100 -> py_max 0 (py_min 100 s) == s.
Proof.
  intros H0 H1. unfold py_max, py_min.
  destruct (Qltb s 100) eqn:E1; [apply Qltb_iff in E1 | apply Qltb_false in E1];
  [destruct (Qltb 0 s) eqn:E2 | destruct (Qltb 0 100) eqn:E2];
  first [apply Qltb_iff in E2 | apply Qltb_false in E2]; lra.
Qed.

Lemma py_round1_bounds (x : Q) : 0 <= x -> x <= 100 -> 0 <= py_round 1 x <= 100.
Proof.
  intros H0 H1. unfold py_round. change (inject_Z (10 ^ Z.of_nat 1)) with 10.
  destruct (round_half_even_bounds (x * 10) 1000) as [Hz0 Hz1].
  - lra.
  - change (inject_Z 1000) with 1000. lra.
  - rewrite Zle_Qle in Hz0, Hz1. change (inject_Z 0) with 0 in Hz0.
    change (inject_Z 1000) with 1000 in Hz1.
    set (z := inject_Z (round_half_even (x * 10))) in *.
    split.
    + apply Qle_shift_div_l; [reflexivity|]. lra.
    + apply Qle_shift_div_r; [reflexivity|]. lra.
Qed.

Lemma count_lt_le (a : list Q) (x : Q) :
  (count_lt a x <= count_le a x)%nat /\ (In x a -> (count_lt a x < count_le a x)%nat).
Proof.
  unfold count_lt, count_le, count_if.
  induction a as [|v a [IH1 IH2]]; simpl.
  - split; [lia | intros []].
  - destruct (Qltb v x) eqn:E1; destruct (Qle_bool v x) eqn:E2; simpl.
    + split; [lia|]. intros [<-|Hin];
      [exfalso; apply Qltb_iff in E1; exact (Qlt_irrefl _ E1) | specialize (IH2 Hin); lia].
    + exfalso. apply Qltb_iff in E1. apply Qlt_le_weak, Qle_bool_iff in E1. congruence.
    + split; [lia|]. intros _. lia.
    + split; [lia|]. intros [<-|Hin].
      * exfalso. rewrite (proj2 (Qle_bool_iff v v) (Qle_refl v)) in E2. discriminate.
      * specialize (IH2 Hin). lia.
Qed.

Lemma Qnat_pos (n : nat) : (0 < n)%nat -> 0 < Qnat n.
Proof. intro H. unfold Qnat, Qlt. simpl. lia. Qed.

Lemma lastn3_app (ts : list Q) (a b c : Q) : lastn 3 (ts ++ [a; b; c]) = [a; b; c].
Proof.
  unfold lastn. rewrite length_app. simpl.
  replace (length ts + 3 - 3)%nat with (length ts) by lia.
  rewrite skipn_app, skipn_all, Nat.sub_diag. reflexivity.
Qed.

Lemma qsum_map_ext {A} (f g : A -> Q) (l : list A) :
  (forall x, In x l -> f x == g x) -> qsum (map f l) == qsum (map g l).
Proof.
  induction l as [|x l IH]; intro H; simpl; [reflexivity|].
  rewrite (H x (or_introl eq_refl)), IH; [reflexivity|].
  intros y Hy. apply H. right. exact Hy.
Qed.

Lemma qsum_div {A} (f : A -> Q) (l : list A) (w : Q) :
  ~ w == 0 -> qsum (map (fun x => f x / w) l) == qsum (map f l) / w.
Proof.
  intro Hw. induction l as [|x l IH]; simpl.
  - field. exact Hw.
  - rewrite IH. field. exact Hw.
Qed.

Lemma qsum_scale {A} (f : A -> Q) (l : list A) (c : Q) :
  qsum (map (fun x => c * f x) l) == c * qsum (map f l).
Proof.
  induction l as [|x l IH]; simpl.
  - ring.
  - rewrite IH. ring.
Qed.

Lemma combine_map_r {A B} (g : B -> B) (l1 : list A) (l2 : list B) :
  combine l1 (map g l2) = map (fun p => (fst p, g (snd p))) (combine l1 l2).
Proof.
  revert l2. induction l1 as [|x l1 IH]; intros [|y l2]; simpl; try reflexivity.
  rewrite IH. reflexivity.
Qed.

Lemma dict_get_scale (c : Q) (fw : list (string * Q)) (k : string) :
  dict_get (scale_weights c fw) k = option_map (Qmult c) (dict_get fw k).
Proof.
  induction fw as [|[k' v] fw IH]; simpl; [reflexivity|].
  destruct (String.eqb k k'); [reflexivity | exact IH].
Qed.

Lemma raw_weights_scale (c : Q) (fw : list (string * Q)) (scored : list factor) :
  Forall (fun f => dict_mem fw (f_id f) = true) scored ->
  module_raw_weights (scale_weights c fw) scored
    = map (fun w => c * w) (module_raw_weights fw scored).
Proof.
  intro Hall. unfold module_raw_weights. rewrite map_map.
  apply map_ext_in. intros f Hf. rewrite Forall_forall in Hall.
  specialize (Hall f Hf). unfold dict_mem in Hall. unfold dict_get_default.
  rewrite dict_get_scale. destruct (dict_get fw (f_id f)); [reflexivity | discriminate].
Qed.

Lemma module_score_unfold (fw : list (string * Q)) (scored : list factor) :
  module_score fw scored
    = let ws := module_raw_weights fw scored in
      if Qeq_bool (qsum ws) 0 then Err ZeroDivisionError
      else Ok (py_round 1 (qsum (map (fun sw => fst sw * snd sw)
                                     (combine (factor_scores scored) ws)) / qsum ws)).
Proof. reflexivity. Qed.

Lemma Qeq_bool_pos (w : Q) : 0 < w -> Qeq_bool w 0 = false.
Proof.
  intro H. destruct (Qeq_bool w 0) eqn:E; [|reflexivity].
  apply Qeq_bool_iff in E. rewrite E in H. exfalso. exact (Qlt_irrefl 0 H).
Qed.

(** ** Frames over a common date index *)

Lemma strongly_sorted_nodup (l : list Z) : StronglySorted Z.lt l -> NoDup l.
Proof.
  induction 1 as [|d l _ IH Hall]; constructor; [|exact IH].
  intro Hin. rewrite Forall_forall in Hall. specialize (Hall d Hin). lia.
Qed.

Lemma insert_date_absorb (d : Z) (l : list Z) :
  StronglySorted Z.lt l -> In d l -> insert_date d l = l.
Proof.
  induction 1 as [|d' l _ IH Hall]; intros Hin; [destruct Hin|].
  simpl. destruct Hin as [<-|Hin].
  - rewrite Z.ltb_irrefl, Z.eqb_refl. reflexivity.
  - rewrite Forall_forall in Hall. specialize (Hall d Hin).
    destruct (Z.ltb_spec d d'); [lia|]. destruct (Z.eqb_spec d d'); [lia|].
    rewrite IH by exact Hin. reflexivity.
Qed.

Lemma fold_insert_sorted (D : list Z) :
  StronglySorted Z.lt D -> fold_right insert_date [] D = D.
Proof.
  induction 1 as [|d l Hs IH Hall]; [reflexivity|].
  simpl. rewrite IH. destruct l as [|d' l]; [reflexivity|].
  simpl. inversion Hall as [|? ? Hd _]; subst. apply Z.ltb_lt in Hd. rewrite Hd. reflexivity.
Qed.

Lemma fold_insert_absorb (D l : list Z) :
  StronglySorted Z.lt D -> incl l D -> fold_right insert_date D l = D.
Proof.
  intros HD. induction l as [|x l IH]; intro Hincl; [reflexivity|].
  simpl. rewrite IH by (intros y Hy; apply Hincl; right; exact Hy).
  apply insert_date_absorb; [exact HD|]. apply Hincl. left. reflexivity.
Qed.

Lemma frame_dates_aligned (cols : list series) (D : list Z) :
  StronglySorted Z.lt D -> cols <> [] -> Forall (fun s => map fst s = D) cols ->
  frame_dates cols = D.
Proof.
  intros HD. induction cols as [|c cs IH]; intros Hne Hall; [congruence|].
  pose proof (Forall_inv Hall) as Hc. pose proof (Forall_inv_tail Hall) as Hcs.
  unfold frame_dates. simpl.
  fold (frame_dates cs). rewrite Hc.
  destruct cs as [|c' cs'].
  - apply fold_insert_sorted. exact HD.
  - rewrite IH by (congruence || exact Hcs). apply fold_insert_absorb; [exact HD|].
    intros y Hy. exact Hy.
Qed.

Lemma lookup_date_nth (s : series) (k : nat) :
  NoDup (map fst s) -> (k < length s)%nat ->
  lookup_date (nth k (map fst s) 0%Z) s = Some (nth k (map snd s) 0).
Proof.
  revert k. induction s as [|[d v] s IH]; intros k Hnd Hk; simpl in *; [lia|].
  inversion Hnd as [|? ? Hnin Hnd']; subst.
  destruct k as [|k]; simpl.
  - rewrite Z.eqb_refl. reflexivity.
  - destruct (Z.eqb_spec (nth k (map fst s) 0%Z) d) as [E|E].
    + exfalso. apply Hnin. rewrite <- E. apply nth_In. rewrite length_map. lia.
    + apply IH; [exact Hnd' | lia].
Qed.

Lemma nth_map_lt {A B} (f : A -> B) (l : list A) (k : nat) (da : A) (db : B) :
  (k < length l)%nat -> nth k (map f l) db = f (nth k l da).
Proof.
  revert k. induction l as [|x l IH]; intros k Hk; simpl in *; [lia|].
  destruct k; [reflexivity|]. apply IH. lia.
Qed.

Lemma frame_wsum_aligned (cols : list series) (ws : list Q) (D : list Z) :
  StronglySorted Z.lt D -> cols <> [] -> Forall (fun s => map fst s = D) cols ->
  map fst (frame_wsum cols ws) = D /\
  forall k, (k < length D)%nat ->
    nth k (values (frame_wsum cols ws)) 0
      == qsum (map (fun cw => nth k (values (fst cw)) 0 * snd cw) (combine cols ws)).
Proof.
  intros HD Hne Hall. unfold frame_wsum. rewrite (frame_dates_aligned cols D HD Hne Hall).
  split.
  - rewrite map_map. simpl. apply map_id.
  - intros k Hk. unfold values. rewrite map_map.
    rewrite (@nth_map_lt Z Q _ D k 0%Z 0 Hk). simpl.
    apply qsum_map_ext. intros [c w] Hcw. simpl.
    apply in_combine_l in Hcw. rewrite Forall_forall in Hall. specialize (Hall _ Hcw).
    rewrite <- Hall. rewrite lookup_date_nth.
    + apply Qeq_refl.
    + rewrite Hall. apply strongly_sorted_nodup. exact HD.
    + rewrite <- (length_map fst), Hall. exact Hk.
Qed.

Lemma filter_all {A} (p : A -> bool) (l : list A) :
  (forall x, In x l -> p x = true) -> filter p l = l.
Proof.
  induction l as [|x l IH]; intro H; simpl; [reflexivity|].
  rewrite (H x (or_introl eq_refl)), IH; [reflexivity|].
  intros y Hy. apply H. right. exact Hy.
Qed.

Lemma combine_map_map {A B C} (f : A -> B) (g : A -> C) (l : list A) :
  combine (map f l) (map g l) = map (fun x => (f x, g x)) l.
Proof. induction l as [|x l IH]; simpl; [reflexivity | rewrite IH; reflexivity]. Qed.

Lemma module_history_aligned (fw : list (string * Q)) (ids : list string)
    (afss : list (string * series)) (D : list Z) :
  StronglySorted Z.lt D -> (0 < length D)%nat -> ids <> [] ->
  (forall fid, In fid ids -> exists ss, dict_get afss fid = Some ss /\ map fst ss = D) ->
  map fst (module_history fw ids afss) = D /\
  forall k, (k < length D)%nat ->
    nth k (values (module_history fw ids afss)) 0 == module_value_at fw ids afss k.
Proof.
  intros HD Hlen Hne Hh. unfold module_history. cbv zeta.
  rewrite filter_all.
  2:{ intros fid Hfid. destruct (Hh fid Hfid) as [ss [Hss Hd]]. rewrite Hss.
      rewrite <- (length_map fst ss), Hd. destruct (length D); [lia | reflexivity]. }
  assert (Hcols : Forall (fun s => map fst s = D) (map (fun fid => dict_get_default afss fid []) ids)).
  { rewrite Forall_forall. intros c Hc. apply in_map_iff in Hc as [fid [<- Hfid]].
    destruct (Hh fid Hfid) as [ss [Hss Hd]]. unfold dict_get_default. rewrite Hss. exact Hd. }
  destruct (map (fun fid => dict_get_default afss fid []) ids) as [|c cs] eqn:E.
  { destruct ids; [congruence | discriminate]. }
  rewrite <- E in *.
  destruct (frame_wsum_aligned (map (fun fid => dict_get_default afss fid []) ids)
              (map (fun w => w / qsum (map (fun fid => dict_get_default fw fid (1 / Qnat (length ids))) ids))
                   (map (fun fid => dict_get_default fw fid (1 / Qnat (length ids))) ids))
              D HD ltac:(rewrite E; discriminate) Hcols) as [H1 H2].
  split; [exact H1|]. intros k Hk. rewrite (H2 k Hk).
  rewrite map_map, combine_map_map, map_map. unfold module_value_at.
  apply qsum_map_ext. intros fid _. simpl. apply Qeq_refl.
Qed.

Lemma qsum_app (l1 l2 : list Q) : qsum (l1 ++ l2) == qsum l1 + qsum l2.
Proof. induction l1 as [|x l1 IH]; simpl; [ring | rewrite IH; ring]. Qed.

Lemma qsum_flat_map {A B} (g : B -> Q) (F : A -> list B) (l : list A) :
  qsum (map g (flat_map F l)) == qsum (map (fun x => qsum (map g (F x))) l).
Proof.
  induction l as [|x l IH]; simpl; [reflexivity|].
  rewrite map_app, qsum_app, IH. reflexivity.
Qed.

Lemma qsum_map_sub {A} (f g : A -> Q) (l : list A) :
  qsum (map (fun x => f x - g x) l) == qsum (map f l) - qsum (map g l).
Proof. induction l as [|x l IH]; simpl; [ring | rewrite IH; ring]. Qed.

Lemma qsum_scale_r {A} (f : A -> Q) (l : list A) (c : Q) :
  qsum (map (fun x => f x * c) l) == qsum (map f l) * c.
Proof. induction l as [|x l IH]; simpl; [ring | rewrite IH; ring]. Qed.

Lemma last_nth (l : list Q) : last_val l = nth (length l - 1) l 0.
Proof.
  unfold last_val. induction l as [|x l IH]; [reflexivity|].
  destruct l as [|y l]; [reflexivity|].
  change (last (x :: y :: l) 0) with (last (y :: l) 0). rewrite IH.
  simpl. rewrite Nat.sub_0_r. reflexivity.
Qed.

Lemma values_scale (s : series) (w : Q) :
  values (series_scale s w) = map (fun v => v * w) (values s).
Proof. unfold values, series_scale. rewrite !map_map. reflexivity. Qed.

Lemma overall_parts_aligned (fwt : list (string * list (string * Q)))
    (afss : list (string * series)) (D : list Z) (P : list (string * Q * module)) :
  StronglySorted Z.lt D -> (0 < length D)%nat ->
  (forall x, In x P -> scored_ids_of (snd x) <> [] /\
     forall fid, In fid (scored_ids_of (snd x)) ->
       exists ss, dict_get afss fid = Some ss /\ map fst ss = D) ->
  flat_map (fun x =>
      let '(slug, w, m) := x in
      match module_history (dict_get_default fwt slug []) (scored_ids_of m) afss with
      | [] => []
      | ts => [series_scale ts w]
      end) P
  = map (fun x => series_scale (module_history (dict_get_default fwt (fst (fst x)) [])
                                  (scored_ids_of (snd x)) afss) (snd (fst x))) P.
Proof.
  intros HD Hlen. induction P as [|[[slug w] m] P IH]; intro Hall; [reflexivity|].
  cbn [flat_map map fst snd]. destruct (Hall _ (or_introl eq_refl)) as [Hne Hh]. simpl in Hne, Hh.
  destruct (module_history_aligned (dict_get_default fwt slug []) (scored_ids_of m) afss D
              HD Hlen Hne Hh) as [H1 _].
  rewrite IH by (intros x Hx; apply Hall; right; exact Hx).
  destruct (module_history (dict_get_default fwt slug []) (scored_ids_of m) afss).
  - simpl in H1. subst D. simpl in Hlen. lia.
  - reflexivity.
Qed.

Lemma overall_ts_aligned (mw : list (string * Q)) (fwt : list (string * list (string * Q)))
    (modules : list (string * module)) (afss : list (string * series)) (D : list Z) :
  StronglySorted Z.lt D -> (0 < length D)%nat -> present mw modules <> [] ->
  (forall x, In x (present mw modules) -> scored_ids_of (snd x) <> [] /\
     forall fid, In fid (scored_ids_of (snd x)) ->
       exists ss, dict_get afss fid = Some ss /\ map fst ss = D) ->
  map fst (overall_ts mw fwt modules afss) = D /\
  forall k, (k < length D)%nat ->
    nth k (values (overall_ts mw fwt modules afss)) 0
      == qsum (map (fun x => module_value_at (dict_get_default fwt (fst (fst x)) [])
                               (scored_ids_of (snd x)) afss k * snd (fst x))
                   (present mw modules)).
Proof.
  intros HD Hlen HP Hall. unfold overall_ts.
  rewrite (overall_parts_aligned fwt afss D _ HD Hlen Hall).
  set (G := fun x : string * Q * module =>
              series_scale (module_history (dict_get_default fwt (fst (fst x)) [])
                              (scored_ids_of (snd x)) afss) (snd (fst x))).
  assert (Hcols : Forall (fun s => map fst s = D) (map G (present mw modules))).
  { rewrite Forall_forall. intros c Hc. apply in_map_iff in Hc as [x [<- Hx]].
    destruct (Hall x Hx) as [Hne Hh].
    destruct (module_history_aligned (dict_get_default fwt (fst (fst x)) []) _ afss D HD Hlen Hne Hh) as [H1 _].
    unfold G, series_scale. rewrite map_map. exact H1. }
  destruct (map G (present mw modules)) as [|c cs] eqn:E.
  { destruct (present mw modules); [congruence | discriminate]. }
  rewrite <- E in *.
  destruct (frame_wsum_aligned (map G (present mw modules))
              (map (fun _ => 1) (map G (present mw modules))) D HD
              ltac:(rewrite E; discriminate) Hcols) as [H1 H2].
  split; [exact H1|]. intros k Hk. rewrite (H2 k Hk).
  rewrite (map_map G (fun _ => 1)), combine_map_map, map_map.
  apply qsum_map_ext. intros x Hx. simpl.
  destruct (Hall x Hx) as [Hne Hh].
  destruct (module_history_aligned (dict_get_default fwt (fst (fst x)) []) _ afss D HD Hlen Hne Hh) as [Hd Hv].
  unfold G. rewrite values_scale.
  rewrite (@nth_map_lt Q Q (fun v => v * snd (fst x)) _ k 0 0).
  - rewrite (Hv k Hk). ring.
  - unfold values. rewrite length_map, <- (length_map fst), Hd. exact Hk.
Qed.

Lemma lift_drag_contribs_aligned (mw : list (string * Q))
    (fwt : list (string * list (string * Q)))
    (modules : list (string * module)) (afss : list (string * series)) (D : list Z) :
  (9 <= length D)%nat ->
  (forall x f, In x (present mw modules) -> In f (scored_of (m_factors (snd x))) ->
     exists ss, dict_get afss (f_id f) = Some ss /\ map fst ss = D) ->
  qsum (map snd (lift_drag_contribs mw fwt modules afss))
    == qsum (map (fun x =>
         qsum (map (fun f =>
           (nth (length D - 1) (values (dict_get_default afss (f_id f) [])) 0
            - nth (length D - 8) (values (dict_get_default afss (f_id f) [])) 0)
           * (dict_get_default (dict_get_default fwt (fst (fst x)) []) (f_id f)
                (1 / Qnat (length (scored_of (m_factors (snd x))))) * snd (fst x)))
           (scored_of (m_factors (snd x))))) (present mw modules)).
Proof.
  intros Hlen Hh. unfold lift_drag_contribs. rewrite qsum_flat_map.
  apply qsum_map_ext. intros [[slug w] m] Hx. simpl.
  rewrite qsum_flat_map. apply qsum_map_ext. intros f Hf.
  destruct (Hh _ _ Hx Hf) as [ss [Hss Hd]].
  rewrite Hss.
  assert (Hl : length (values ss) = length D).
  { unfold values. rewrite length_map, <- (length_map fst), Hd. reflexivity. }
  rewrite Hl. destruct (Nat.ltb_spec (length D) 9); [lia|].
  destruct (Nat.ltb_spec 8 (length D)); [|lia].
  assert (Hg : dict_get_default afss (f_id f) [] = ss)
    by (unfold dict_get_default; rewrite Hss; reflexivity).
  rewrite Hg. simpl. rewrite last_nth, Hl. unfold iloc_neg. rewrite Hl. ring.
Qed.

(** The lift/drag contributions add up exactly to the 7-day change of the
    overall score history ([overall_ts]), when every scored factor of every
    present module has a score history over the same dates and each present
    module's raw factor weights sum to 1. *)
Lemma lift_drag_history_conservation (mw : list (string * Q))
    (fwt : list (string * list (string * Q)))
    (modules : list (string * module)) (afss : list (string * series)) (D : list Z) :
  StronglySorted Z.lt D -> (9 <= length D)%nat ->
  (forall x f, In x (present mw modules) -> In f (scored_of (m_factors (snd x))) ->
     exists ss, dict_get afss (f_id f) = Some ss /\ map fst ss = D) ->
  (forall x, In x (present mw modules) ->
     qsum (module_raw_weights (dict_get_default fwt (fst (fst x)) [])
                              (scored_of (m_factors (snd x)))) == 1) ->
  qsum (map snd (lift_drag_contribs mw fwt modules afss))
    == last_val (values (overall_ts mw fwt modules afss))
       - iloc_neg 8 (values (overall_ts mw fwt modules afss)).
Proof.
  intros HD Hlen Hh Hw.
  destruct (present mw modules) as [|x0 P0] eqn:EP.
  { unfold lift_drag_contribs, overall_ts. rewrite EP. vm_compute. reflexivity. }
  rewrite <- EP in *.
  assert (Hall : forall x, In x (present mw modules) -> scored_ids_of (snd x) <> [] /\
     forall fid, In fid (scored_ids_of (snd x)) ->
       exists ss, dict_get afss fid = Some ss /\ map fst ss = D).
  { intros x Hx. split.
    - intro Hnil. unfold scored_ids_of in Hnil. apply map_eq_nil in Hnil.
      specialize (Hw x Hx). rewrite Hnil in Hw. vm_compute in Hw. discriminate.
    - intros fid Hfid. unfold scored_ids_of in Hfid. apply in_map_iff in Hfid as [f [<- Hf]].
      exact (Hh x f Hx Hf). }
  assert (HP : present mw modules <> []) by (rewrite EP; discriminate).
  destruct (overall_ts_aligned mw fwt modules afss D HD ltac:(lia) HP Hall) as [H1 H2].
  assert (Hlo : length (values (overall_ts mw fwt modules afss)) = length D).
  { unfold values. rewrite length_map, <- (length_map fst), H1. reflexivity. }
  rewrite last_nth. unfold iloc_neg. rewrite Hlo.
  rewrite (H2 (length D - 1)%nat ltac:(lia)), (H2 (length D - 8)%nat ltac:(lia)).
  rewrite (lift_drag_contribs_aligned mw fwt modules afss D Hlen Hh).
  rewrite <- qsum_map_sub. apply qsum_map_ext. intros x Hx.
  specialize (Hw x Hx). unfold module_raw_weights in Hw.
  unfold module_value_at, scored_ids_of. rewrite length_map, !map_map.
  set (S := scored_of (m_factors (snd x))) in *.
  set (fw := dict_get_default fwt (fst (fst x)) []) in *.
  set (r := qsum (map (fun f => dict_get_default fw (f_id f) (1 / Qnat (length S))) S)) in *.
  rewrite <- !qsum_scale_r, <- qsum_map_sub.
  apply qsum_map_ext. intros f _. rewrite Hw. field.
Qed.

(** * Claims *)

(** C1: for a query value [x] that is a member of a window of at least two
    values, the engine returns [((c_lt + c_le + 1) / (2n)) * 100]: the
    average 1-based rank of the occurrences of [x], as a percentage (not
    [((c_lt + c_le) / (2n)) * 100]). *)
Theorem percentileofscore_rank_member (a : list Q) (x : Q)
    (Hin : In x a) (Hn : (2 <= length a)%nat) :
  percentileofscore_rank a x
    == Qnat (count_lt a x + count_le a x + 1) / (2 * Qnat (length a)) * 100.
Proof.
  unfold percentileofscore_rank. fold (count_lt a x) (count_le a x).
  destruct (count_lt_le a x) as [_ Hs]. specialize (Hs Hin).
  apply Nat.ltb_lt in Hs. rewrite Hs.
  assert (Hpos : 0 < Qnat (length a)) by (apply Qnat_pos; lia).
  field. intro H0. rewrite H0 in Hpos. exact (Qlt_irrefl 0 Hpos).
Qed.

Lemma percentileofscore_rank_member_witness :
  In 20 [10; 20; 20; 30] /\ (2 <= length [10; 20; 20; 30])%nat /\
  percentileofscore_rank [10; 20; 20; 30] 20
    == Qnat (count_lt [10; 20; 20; 30] 20 + count_le [10; 20; 20; 30] 20 + 1)
         / (2 * Qnat (length [10; 20; 20; 30])) * 100.
Proof.
  split; [simpl; auto|]. split; [simpl; lia|].
  apply percentileofscore_rank_member; [simpl; auto | simpl; lia].
Defined.

(** C1 (counterexample): with the window [[10; 20; 20; 30]] and the member
    [20], the engine does not return [((c_lt + c_le) / (2n)) * 100] = 50. *)
Lemma percentileofscore_rank_spec_formula_cex :
  In 20 [10; 20; 20; 30] /\ (2 <= length [10; 20; 20; 30])%nat /\
  ~ (percentileofscore_rank [10; 20; 20; 30] 20
       == spec_percentile_rank [10; 20; 20; 30] 20).
Proof.
  split; [simpl; auto|]. split; [simpl; lia|].
  vm_compute. discriminate.
Qed.

(** C2: the engine returns 60.0 for 30 in [[10; 20; 30; 40; 50]] and 62.5
    for 20 in [[10; 20; 20; 30]] (both 20s get the averaged rank 2.5). *)
Theorem percentile_examples :
  percentileofscore_rank [10; 20; 30; 40; 50] 30 == 60 /\
  percentileofscore_rank [10; 20; 20; 30] 20 == 125 # 2.
Proof. split; vm_compute; reflexivity. Qed.

(** C2 (counterexample): 30 in [[10; 20; 30; 40; 50]] is not ranked 50.0. *)
Lemma percentile_example_30_cex :
  ~ (percentileofscore_rank [10; 20; 30; 40; 50] 30 == 50).
Proof. vm_compute. discriminate. Qed.

(** C5: for a raw percentile [p] in [[0, 100]], a factor's score is
    [100 - p] when the factor is inverted (its id is in [INVERT_FACTORS])
    and [p] otherwise, rounded to one decimal (the clamp to [[0, 100]]
    leaves these values unchanged). *)
Theorem score_from_pct_inversion (p : Q) (fid : string)
    (H0 : 0 <= p) (H1 : p <= 100) :
  score_from_pct p fid = py_round 1 (if is_invert fid then 100 - p else p).
Proof.
  unfold score_from_pct. apply py_round_comp.
  destruct (is_invert fid); apply clamp_id; lra.
Qed.

Lemma score_from_pct_inversion_witness :
  0 <= 80 /\ 80 <= 100 /\
  score_from_pct 80 "vix" = py_round 1 (if is_invert "vix" then 100 - 80 else 80).
Proof.
  split; [vm_compute; discriminate|]. split; [vm_compute; discriminate|].
  apply score_from_pct_inversion; vm_compute; discriminate.
Defined.

(** C6: every factor score lies in [[0, 100]]; the status of a factor built
    by [make_factor] is [get_status] of its score; and [get_status] maps
    66.0 to supportive, 65.9 and 33.0 to neutral, 32.9 to restrictive. *)
Theorem factor_score_range_status :
  (forall p fid, 0 <= score_from_pct p fid <= 100) /\
  (forall today fid name rs ex,
     match make_factor today fid name rs ex with
     | Ok (Some f) => f_status f = get_status (score_from_pct (pct_rank today (dropna rs)) fid)
     | _ => True
     end) /\
  get_status 66 = "supportive"%string /\
  get_status (659 # 10) = "neutral"%string /\
  get_status 33 = "neutral"%string /\
  get_status (329 # 10) = "restrictive"%string.
Proof.
  split.
  { intros p fid. unfold score_from_pct.
    destruct (clamp_bounds (if is_invert fid then 100 - p else p)).
    apply py_round1_bounds; assumption. }
  split.
  { intros today fid name rs ex. unfold make_factor.
    destruct (Nat.ltb (length (dropna rs)) 10); [exact I|].
    destruct (percentile_dist today (dropna rs)); simpl; reflexivity || exact I. }
  repeat split; vm_compute; reflexivity.
Qed.

(** C8: the trend direction compares the most recent value of the score
    history with the value two observations before it (the first of the
    last three; with exactly two values, the earlier one; with fewer,
    stable): at module level a rise of more than 1 is improving and a fall
    of more than 1 declining; at overall level the threshold is 0.5;
    otherwise stable. *)
Theorem trend_dir_two_back (ts : list Q) :
  module_trend_dir ts = amended_trend_dir 1 ts /\
  overall_trend_dir ts = amended_trend_dir (1 # 2) ts.
Proof.
  rewrite <- (rev_involutive ts).
  destruct (rev ts) as [|c [|b [|a t]]]; [split; reflexivity | split; reflexivity | |].
  - split; reflexivity.
  - unfold amended_trend_dir. rewrite rev_involutive.
    assert (Ht : rev (c :: b :: a :: t) = rev t ++ [a; b; c])
      by (simpl; rewrite <- !app_assoc; reflexivity).
    rewrite Ht. unfold module_trend_dir, overall_trend_dir.
    rewrite !lastn3_app. split; reflexivity.
Qed.

(** C8 (counterexample): the code compares with the value two
    observations back, not three. A history ending 48, 50, 50, 50 is
    stable at both levels, where the claimed rule (three observations
    back, threshold 1) gives improving; and an overall history ending 50,
    50, 50, 50.7 is improving (threshold 0.5), where the claimed rule gives
    stable. *)
Lemma overall_trend_dir_cex :
  module_trend_dir [48; 50; 50; 50] = "stable"%string /\
  overall_trend_dir [48; 50; 50; 50] = "stable"%string /\
  spec_trend_dir [48; 50; 50; 50] = "improving"%string /\
  overall_trend_dir [50; 50; 50; 507 # 10] = "improving"%string /\
  spec_trend_dir [50; 50; 50; 507 # 10] = "stable"%string.
Proof. repeat split; vm_compute; reflexivity. Qed.

(** C3 (code defect): with the external module dropped (its factor series
    are empty), the overall score is the sum of the six present module
    scores times their raw weight 1/7 (38.1), not their renormalized
    weighted average (44.4). *)
Theorem overall_score_not_renormalized :
  match run today_ex src_no_external with
  | Ok d =>
      dict_mem (d_modules d) "external" = false /\
      length (d_modules d) = 6%nat /\
      d_score d == 381 # 10 /\
      spec_overall_score MODULE_WEIGHTS (d_modules d) == 444 # 10
  | Err _ => False
  end.
Proof. vm_compute. repeat split; reflexivity. Qed.

(** C9 (code defect): a factor series of ten observations all older than
    the five-year cutoff gets the neutral percentile 50 from [pct_rank],
    but [percentile_dist] calls [np.percentile] on the empty window, which
    raises [IndexError]; the exception aborts [make_factor] and the run. *)
Theorem stale_series_raises :
  length (dropna stale_series) = 10%nat /\
  pct_rank today_ex (dropna stale_series) == 50 /\
  make_factor today_ex "vix" "VIX" stale_series false = Err IndexError /\
  run today_ex src_stale_vix = Err IndexError.
Proof. vm_compute. repeat split; reflexivity. Qed.

(** C10 (code defect): for the window 1, ..., 10 the ten bucket counts sum
    to 9: the maximum 10 lies above the 99.9th percentile (9.991) that
    bounds the last bucket from above, so it is counted in no bucket. *)
Theorem histogram_misses_max :
  match percentile_dist today_ex (dropna recent_series) with
  | Ok bs => length (values (since (today_ex - 5 * 365) (dropna recent_series))) = 10%nat /\
             fold_right Nat.add 0%nat (map freq bs) = 9%nat /\
             np_percentile [1; 2; 3; 4; 5; 6; 7; 8; 9; 10] (999 # 10) = Ok (9991 # 1000)
  | Err _ => False
  end.
Proof. vm_compute. repeat split; reflexivity. Qed.

(** C7: when the raw weights of a module's scored factors have a positive
    sum, the module score is the weighted average of the factors' current
    scores, rounded to one decimal, with the raw weights renormalized to
    sum to 1; a raw weight is the configured weight, or [1/n] ([n] scored
    factors) for a factor missing from the table, before renormalization.
    Scaling every configured weight by [c > 0] (e.g. a table summing to
    2.0 against the same table halved) leaves the module score unchanged. *)
Theorem module_score_renormalized (fw : list (string * Q)) (scored : list factor)
    (Hpos : 0 < qsum (module_raw_weights fw scored)) :
  let ws := module_raw_weights fw scored in
  qsum (map (fun w => w / qsum ws) ws) == 1 /\
  module_score fw scored
    = Ok (py_round 1 (qsum (map (fun sw => fst sw * (snd sw / qsum ws))
                                (combine (factor_scores scored) ws)))) /\
  (forall c, 0 < c -> Forall (fun f => dict_mem fw (f_id f) = true) scored ->
     module_score (scale_weights c fw) scored = module_score fw scored).
Proof.
  cbv zeta.
  assert (Hnz : ~ qsum (module_raw_weights fw scored) == 0).
  { intro E. rewrite E in Hpos. exact (Qlt_irrefl 0 Hpos). }
  split; [|split].
  - rewrite (qsum_div (fun w => w)) by exact Hnz. rewrite map_id. field. exact Hnz.
  - rewrite module_score_unfold. cbv zeta. rewrite (Qeq_bool_pos _ Hpos).
    f_equal. apply py_round_comp.
    rewrite <- (qsum_div (fun sw => fst sw * snd sw)) by exact Hnz.
    apply qsum_map_ext. intros sw _. field. exact Hnz.
  - intros c Hc Hall. rewrite !module_score_unfold. cbv zeta.
    rewrite (raw_weights_scale c fw scored Hall).
    set (ws := module_raw_weights fw scored) in *.
    assert (Hs : qsum (map (fun w => c * w) ws) == c * qsum ws)
      by (rewrite (qsum_scale (fun w => w) ws c), map_id; reflexivity).
    assert (Hpos' : 0 < qsum (map (fun w => c * w) ws)).
    { rewrite Hs. apply Qmult_lt_0_compat; assumption. }
    rewrite (Qeq_bool_pos _ Hpos), (Qeq_bool_pos _ Hpos').
    f_equal. apply py_round_comp.
    rewrite combine_map_r, map_map, Hs.
    rewrite (qsum_map_ext _ (fun p => c * (fst p * snd p))) by (intros; simpl; ring).
    rewrite qsum_scale. field. split; [exact Hnz|].
    intro E. rewrite E in Hc. exact (Qlt_irrefl 0 Hc).
Qed.

Lemma module_score_renormalized_witness :
  0 < qsum (module_raw_weights [("a", 8 # 10); ("b", 8 # 10); ("c", 4 # 10)]%string [fa; fb; fc]) /\
  (let ws := module_raw_weights [("a", 8 # 10); ("b", 8 # 10); ("c", 4 # 10)]%string [fa; fb; fc] in
   qsum (map (fun w => w / qsum ws) ws) == 1 /\
   module_score [("a", 8 # 10); ("b", 8 # 10); ("c", 4 # 10)]%string [fa; fb; fc]
     = Ok (py_round 1 (qsum (map (fun sw => fst sw * (snd sw / qsum ws))
                                 (combine (factor_scores [fa; fb; fc]) ws)))) /\
   (forall c, 0 < c ->
      Forall (fun f => dict_mem [("a", 8 # 10); ("b", 8 # 10); ("c", 4 # 10)]%string (f_id f) = true)
        [fa; fb; fc] ->
      module_score (scale_weights c [("a", 8 # 10); ("b", 8 # 10); ("c", 4 # 10)]%string) [fa; fb; fc]
        = module_score [("a", 8 # 10); ("b", 8 # 10); ("c", 4 # 10)]%string [fa; fb; fc])).
Proof.
  split; [vm_compute; reflexivity|].
  apply module_score_renormalized. vm_compute. reflexivity.
Defined.

(** C7 (counterexample): with the table [{a: 0.8}] and present factors
    [a], [b], [c] scoring 100, 0, 0, the missing [b] and [c] each get raw
    weight 1/3, so the module score is 54.5; with the residual share
    (0.1 each) it would be 80.0. *)
Lemma module_score_residual_cex :
  module_score [("a", 8 # 10)]%string [fa; fb; fc] = Ok (545 # 10) /\
  spec_module_score_residual [("a", 8 # 10)]%string [fa; fb; fc] == 80.
Proof. split; vm_compute; reflexivity. Qed.

(** C4: on the run [src_window_gap] (every series with nine observations
    in the ninety days before the five-year cutoff and five after it), the
    overall score is 40.0 and the previous score 42.8, a 7-day change of
    -2.8, while the lift and drag points add up to 10.0: the sum misses the
    change by more than the tolerance 0.1. *)
Theorem lift_drag_sum_mismatch :
  match run today_ex src_window_gap with
  | Ok d =>
      d_score d == 40 /\ d_prevScore d == 428 # 10 /\
      qsum (map snd (d_scoreLift d ++ d_scoreDrag d)) == 10 /\
      1 # 10 < Qabs (qsum (map snd (d_scoreLift d ++ d_scoreDrag d))
                     - (d_score d - d_prevScore d))
  | Err _ => False
  end.
Proof. vm_compute. repeat split; reflexivity. Qed.

(** * Further properties of the code *)

(** ** Percentile engine and factor scores *)

Lemma Qnat_le (a b : nat) : (a <= b)%nat -> Qnat a <= Qnat b.
Proof. intro H. unfold Qnat, Qle. simpl. lia. Qed.

Lemma Qnat_nonneg (a : nat) : 0 <= Qnat a.
Proof. unfold Qnat, Qle. simpl. lia. Qed.

Lemma count_if_le_length (p : Q -> bool) (l : list Q) : (count_if p l <= length l)%nat.
Proof.
  unfold count_if. induction l as [|x l IH]; simpl; [lia|].
  destruct (p x); simpl; lia.
Qed.

Lemma count_if_mono (p q : Q -> bool) (l : list Q) :
  (forall v, p v = true -> q v = true) -> (count_if p l <= count_if q l)%nat.
Proof.
  intro H. unfold count_if. induction l as [|x l IH]; simpl; [lia|].
  destruct (p x) eqn:E; [rewrite (H x E); simpl; lia|].
  destruct (q x); simpl; lia.
Qed.

Lemma count_if_ext (p q : Q -> bool) (l : list Q) :
  (forall v, p v = q v) -> count_if p l = count_if q l.
Proof.
  intro H. unfold count_if. induction l as [|x l IH]; simpl; [reflexivity|].
  rewrite H. destruct (q x); simpl; rewrite IH; reflexivity.
Qed.

Lemma count_if_app (p : Q -> bool) (l1 l2 : list Q) :
  count_if p (l1 ++ l2) = (count_if p l1 + count_if p l2)%nat.
Proof. unfold count_if. rewrite filter_app, length_app. reflexivity. Qed.

Lemma count_if_all (p : Q -> bool) (l : list Q) :
  (forall v, In v l -> p v = true) -> count_if p l = length l.
Proof. intro H. unfold count_if. rewrite filter_all by exact H. reflexivity. Qed.

Lemma count_if_none (p : Q -> bool) (l : list Q) :
  (forall v, In v l -> p v = false) -> count_if p l = 0%nat.
Proof.
  unfold count_if. induction l as [|x l IH]; intro H; simpl; [reflexivity|].
  rewrite (H x (or_introl eq_refl)). apply IH. intros v Hv. apply H. right. exact Hv.
Qed.

(** The scaled count [k * (50 / n)] with [k <= 2n] is a percentage. *)
Lemma rank_scale_bounds (k n : nat) : (k <= 2 * n)%nat -> 0 <= Qnat k * (50 / Qnat n) <= 100.
Proof.
  intro Hk. destruct n as [|n'].
  - assert (k = 0%nat) by lia. subst k. split; vm_compute; intro H; discriminate.
  - assert (Hpos : 0 < Qnat (S n')) by (apply Qnat_pos; lia).
    assert (Hc : 0 <= 50 / Qnat (S n')).
    { apply Qle_shift_div_l; [exact Hpos|]. lra. }
    split.
    + apply Qmult_le_0_compat; [apply Qnat_nonneg | exact Hc].
    + apply Qle_trans with (Qnat (2 * S n') * (50 / Qnat (S n'))).
      * apply Qmult_le_compat_r; [apply Qnat_le; exact Hk | exact Hc].
      * assert (E : Qnat (2 * S n') == 2 * Qnat (S n')).
        { unfold Qnat. rewrite Nat2Z.inj_mul, inject_Z_mult. reflexivity. }
        rewrite E. apply Qle_lteq. right. field.
        intro H0. rewrite H0 in Hpos. exact (Qlt_irrefl 0 Hpos).
Qed.

Lemma percentileofscore_rank_bounds (a : list Q) (x : Q) :
  0 <= percentileofscore_rank a x <= 100.
Proof.
  unfold percentileofscore_rank. fold (count_lt a x) (count_le a x).
  apply rank_scale_bounds.
  destruct (count_lt_le a x) as [Hle _].
  assert (Hn : (count_le a x <= length a)%nat) by apply count_if_le_length.
  destruct (Nat.ltb_spec (count_lt a x) (count_le a x)); lia.
Qed.

Lemma percentileofscore_rank_mono (a : list Q) (x y : Q) :
  x <= y -> percentileofscore_rank a x <= percentileofscore_rank a y.
Proof.
  intro Hxy. destruct (Qle_lt_or_eq _ _ Hxy) as [Hlt|Heq].
  - unfold percentileofscore_rank. fold (count_lt a x) (count_le a x) (count_lt a y) (count_le a y).
    apply Qmult_le_compat_r.
    + apply Qnat_le.
      assert (H1 : (count_le a x <= count_lt a y)%nat).
      { apply count_if_mono. intros v Hv. apply Qle_bool_iff in Hv. apply Qltb_iff. lra. }
      destruct (count_lt_le a y) as [Hy _]. destruct (count_lt_le a x) as [Hx _].
      destruct (Nat.ltb_spec (count_lt a x) (count_le a x));
        destruct (Nat.ltb_spec (count_lt a y) (count_le a y)); lia.
    + destruct (length a) as [|n]; [apply Qle_refl|].
      apply Qle_shift_div_l; [apply Qnat_pos; lia | lra].
  - unfold percentileofscore_rank.
    rewrite (count_if_ext (fun v => Qltb v x) (fun v => Qltb v y))
      by (intro v; apply Qltb_comp; [apply Qeq_refl | exact Heq]).
    rewrite (count_if_ext (fun v => Qle_bool v x) (fun v => Qle_bool v y))
      by (intro v; apply Qle_bool_comp; [apply Qeq_refl | exact Heq]).
    apply Qle_refl.
Qed.

Lemma round_half_even_mono (x y : Q) : x <= y -> (round_half_even x <= round_half_even y)%Z.
Proof.
  intro Hxy.
  assert (Hf : (Qfloor x <= Qfloor y)%Z) by (apply Qfloor_resp_le; exact Hxy).
  pose proof (Qfloor_le x) as Hx1. pose proof (Qlt_floor x) as Hx2.
  pose proof (Qfloor_le y) as Hy1. pose proof (Qlt_floor y) as Hy2.
  rewrite inject_Z_plus in Hx2, Hy2.
  unfold round_half_even.
  destruct (Z.eq_dec (Qfloor x) (Qfloor y)) as [E|NE].
  - rewrite E in *.
    repeat match goal with
           | |- context [Qltb ?a ?b] =>
               let A := fresh "A" in
               destruct (Qltb a b) eqn:A; (apply Qltb_iff in A || apply Qltb_false in A)
           end;
    try lia; try (exfalso; lra);
    destruct (Z.even (Qfloor y)); lia.
  - assert (Hf1 : (Qfloor x + 1 <= Qfloor y)%Z) by lia.
    destruct (Qltb (x - inject_Z (Qfloor x)) (1 # 2));
    destruct (Qltb (1 # 2) (x - inject_Z (Qfloor x)));
    destruct (Qltb (y - inject_Z (Qfloor y)) (1 # 2));
    destruct (Qltb (1 # 2) (y - inject_Z (Qfloor y)));
    try destruct (Z.even (Qfloor x)); try destruct (Z.even (Qfloor y)); lia.
Qed.

Lemma py_round_mono (nd : nat) (x y : Q) : x <= y -> py_round nd x <= py_round nd y.
Proof.
  intro Hxy. unfold py_round.
  set (s := inject_Z (10 ^ Z.of_nat nd)).
  assert (Hs : 0 < s).
  { unfold s, Qlt. simpl. rewrite Z.mul_1_r. apply Z.pow_pos_nonneg; lia. }
  unfold Qdiv. apply Qmult_le_compat_r.
  - rewrite <- Zle_Qle. apply round_half_even_mono. apply Qmult_le_compat_r; [exact Hxy|].
    apply Qlt_le_weak. exact Hs.
  - apply Qlt_le_weak. apply Qinv_lt_0_compat. exact Hs.
Qed.

Lemma clamp_mono (x y : Q) : x <= y -> py_max 0 (py_min 100 x) <= py_max 0 (py_min 100 y).
Proof.
  intro H. unfold py_max, py_min.
  destruct (Qltb x 100) eqn:E1; (apply Qltb_iff in E1 || apply Qltb_false in E1);
  destruct (Qltb y 100) eqn:E2; (apply Qltb_iff in E2 || apply Qltb_false in E2);
  repeat match goal with
         | |- context [Qltb ?a ?b] =>
             let E := fresh "E" in
             destruct (Qltb a b) eqn:E; (apply Qltb_iff in E || apply Qltb_false in E)
         end; lra.
Qed.

Lemma score_from_pct_bounds (p : Q) (fid : string) : 0 <= score_from_pct p fid <= 100.
Proof. unfold score_from_pct. apply py_round1_bounds; apply clamp_bounds. Qed.

Lemma score_from_pct_mono (p1 p2 : Q) (fid : string) :
  p1 <= p2 ->
  if is_invert fid then score_from_pct p2 fid <= score_from_pct p1 fid
  else score_from_pct p1 fid <= score_from_pct p2 fid.
Proof.
  intro H. unfold score_from_pct.
  destruct (is_invert fid); apply py_round_mono, clamp_mono; lra.
Qed.

Lemma filter_none {A} (p : A -> bool) (l : list A) :
  (forall x, In x l -> p x = false) -> filter p l = [].
Proof.
  induction l as [|x l IH]; intro H; simpl; [reflexivity|].
  rewrite (H x (or_introl eq_refl)). apply IH. intros y Hy. apply H. right. exact Hy.
Qed.

Lemma Qltb_refl (x : Q) : Qltb x x = false.
Proof. apply Qltb_false. apply Qle_refl. Qed.

Lemma Qle_bool_refl (x : Q) : Qle_bool x x = true.
Proof. apply Qle_bool_iff. apply Qle_refl. Qed.

Lemma rank_full (m : nat) : (0 < m)%nat -> Qnat (2 * m) * (50 / Qnat m) == 100.
Proof.
  intro Hm. assert (Hpos : 0 < Qnat m) by (apply Qnat_pos; exact Hm).
  assert (E : Qnat (2 * m) == 2 * Qnat m).
  { unfold Qnat. rewrite Nat2Z.inj_mul, inject_Z_mult. reflexivity. }
  rewrite E. field. intro H0. rewrite H0 in Hpos. exact (Qlt_irrefl 0 Hpos).
Qed.

Lemma rank_of_strict_max (pre : list Q) (x : Q) :
  Forall (fun v => v < x) pre -> percentileofscore_rank (pre ++ [x]) x == 100.
Proof.
  intro Hall. rewrite Forall_forall in Hall. unfold percentileofscore_rank.
  rewrite !count_if_app.
  rewrite (count_if_all (fun v => Qltb v x) pre) by (intros v Hv; apply Qltb_iff, Hall, Hv).
  rewrite (count_if_all (fun v => Qle_bool v x) pre)
    by (intros v Hv; apply Qle_bool_iff, Qlt_le_weak, Hall, Hv).
  unfold count_if. simpl. rewrite Qltb_refl, Qle_bool_refl. simpl.
  rewrite length_app. simpl.
  replace (Nat.ltb (length pre + 0) (length pre + 1)) with true
    by (symmetry; apply Nat.ltb_lt; lia).
  replace (length pre + 0 + (length pre + 1) + 1)%nat with (2 * (length pre + 1))%nat by lia.
  apply rank_full. lia.
Qed.

Lemma rank_of_strict_min (pre : list Q) (x : Q) :
  Forall (fun v => x < v) pre ->
  percentileofscore_rank (pre ++ [x]) x == 100 / Qnat (length (pre ++ [x])).
Proof.
  intro Hall. rewrite Forall_forall in Hall. unfold percentileofscore_rank.
  rewrite !count_if_app.
  rewrite (count_if_none (fun v => Qltb v x) pre)
    by (intros v Hv; apply Qltb_false, Qlt_le_weak, Hall, Hv).
  rewrite (count_if_none (fun v => Qle_bool v x) pre).
  2:{ intros v Hv. specialize (Hall v Hv). destruct (Qle_bool v x) eqn:E; [|reflexivity].
      apply Qle_bool_iff in E. exfalso. lra. }
  unfold count_if. simpl. rewrite Qltb_refl, Qle_bool_refl. simpl.
  assert (Hpos : 0 < Qnat (length (pre ++ [x]))) by (apply Qnat_pos; rewrite length_app; simpl; lia).
  change (Qnat 2) with 2. field. intro H0. rewrite H0 in Hpos. exact (Qlt_irrefl 0 Hpos).
Qed.

Lemma last_app_nonnil {A} (pre l : list A) (d : A) : l <> [] -> last (pre ++ l) d = last l d.
Proof.
  intro Hl. induction pre as [|x pre IH]; [reflexivity|].
  rewrite <- app_comm_cons. rewrite <- IH. simpl.
  destruct (pre ++ l) eqn:E; [|reflexivity].
  apply app_eq_nil in E. destruct E. contradiction.
Qed.

Lemma since_app_old (cutoff : Z) (old s : series) :
  Forall (fun p => (fst p < cutoff)%Z) old -> since cutoff (old ++ s) = since cutoff s.
Proof.
  intro Hold. rewrite Forall_forall in Hold. unfold since. rewrite filter_app.
  rewrite (filter_none _ old); [reflexivity|].
  intros p Hp. specialize (Hold p Hp). apply Z.leb_gt. exact Hold.
Qed.

(** The raw percentile of [pct_rank] always lies in [[0, 100]], whatever the
    series (including a window of fewer than two values, where it is 50). *)
Theorem pct_rank_bounds (today : Z) (s : series) : 0 <= pct_rank today s <= 100.
Proof.
  unfold pct_rank. cbv zeta.
  destruct (Nat.ltb _ 2); [split; lra | apply percentileofscore_rank_bounds].
Qed.

(** When the five-year window holds at least two values, a latest value
    strictly above every earlier one in the window gets the raw percentile
    100, and one strictly below every earlier one gets [100 / n] ([n] the
    window size). *)
Theorem pct_rank_extremes (today : Z) (s : series)
    (Hlen : (2 <= length (values (since (today - 5 * 365) s)))%nat) :
  let hist := values (since (today - 5 * 365) s) in
  (Forall (fun v => v < last_val hist) (removelast hist) -> pct_rank today s == 100) /\
  (Forall (fun v => last_val hist < v) (removelast hist) ->
     pct_rank today s == 100 / Qnat (length hist)).
Proof.
  cbv zeta. unfold pct_rank. cbv zeta.
  assert (Hl : Nat.ltb (length (since (today - 5 * 365) s)) 2 = false).
  { apply Nat.ltb_ge. unfold values in Hlen. rewrite length_map in Hlen. exact Hlen. }
  rewrite Hl.
  set (h := values (since (today - 5 * 365) s)) in *.
  assert (Hne : h <> []) by (intro E; rewrite E in Hlen; simpl in Hlen; lia).
  assert (E : h = removelast h ++ [last_val h]) by (apply app_removelast_last; exact Hne).
  set (x := last_val h) in *. set (pre := removelast h) in *.
  clearbody x pre. clearbody h. subst h.
  split; intro Hall.
  - apply rank_of_strict_max. exact Hall.
  - apply rank_of_strict_min. exact Hall.
Qed.

Lemma pct_rank_extremes_witness :
  (2 <= length (values (since (today_ex - 5 * 365) (dropna recent_series))))%nat /\
  (let hist := values (since (today_ex - 5 * 365) (dropna recent_series)) in
   (Forall (fun v => v < last_val hist) (removelast hist) ->
      pct_rank today_ex (dropna recent_series) == 100) /\
   (Forall (fun v => last_val hist < v) (removelast hist) ->
      pct_rank today_ex (dropna recent_series) == 100 / Qnat (length hist))).
Proof.
  split; [vm_compute; lia|].
  apply pct_rank_extremes. vm_compute. lia.
Defined.

(** Observations dated before the five-year cutoff change neither the raw
    percentile ([pct_rank]) nor the histogram ([percentile_dist]). *)
Theorem window_ignores_older (today : Z) (old s : series)
    (Hold : Forall (fun p => (fst p < today - 5 * 365)%Z) old) :
  pct_rank today (old ++ s) = pct_rank today s /\
  percentile_dist today (old ++ s) = percentile_dist today s.
Proof.
  unfold pct_rank, percentile_dist. rewrite (since_app_old _ old s Hold).
  split; reflexivity.
Qed.

Lemma window_ignores_older_witness :
  Forall (fun p => (fst p < today_ex - 5 * 365)%Z) [((today_ex - 3000)%Z, 7)] /\
  pct_rank today_ex ([((today_ex - 3000)%Z, 7)] ++ dropna recent_series)
    = pct_rank today_ex (dropna recent_series) /\
  percentile_dist today_ex ([((today_ex - 3000)%Z, 7)] ++ dropna recent_series)
    = percentile_dist today_ex (dropna recent_series).
Proof.
  assert (H : Forall (fun p => (fst p < today_ex - 5 * 365)%Z) [((today_ex - 3000)%Z, 7)])
    by (constructor; [vm_compute; reflexivity | constructor]).
  split; [exact H|]. apply window_ignores_older. exact H.
Defined.

(** [make_score_series] returns an empty series when fewer than five
    observations fall in its window ([today - (5 * 365 + 90)] on);
    otherwise it has exactly the window's dates, and every score lies in
    [[0, 100]]. *)
Theorem make_score_series_shape (today : Z) (rs : raw_series) (fid : string) :
  let hist := since (today - (365 * 5 + 90)) (dropna rs) in
  ((length hist < 5)%nat -> make_score_series today rs fid = []) /\
  ((5 <= length hist)%nat ->
     map fst (make_score_series today rs fid) = map fst hist /\
     Forall (fun v => 0 <= v <= 100) (values (make_score_series today rs fid))).
Proof.
  cbv zeta. unfold make_score_series. cbv zeta.
  destruct (Nat.ltb_spec (length (since (today - (365 * 5 + 90)) (dropna rs))) 5) as [H|H].
  - split; [reflexivity | intro; lia].
  - split; [intro; lia|]. intros _. unfold score_series_of. split.
    + rewrite map_map. reflexivity.
    + unfold values. rewrite map_map. apply Forall_forall. intros v Hv.
      apply in_map_iff in Hv as [p [<- _]]. apply score_from_pct_bounds.
Qed.

(** Within a factor's score history the ranking preserves the order of
    the raw values: a larger raw value never gets a lower score (a higher
    one for an inverted factor). *)
Theorem make_score_series_order (today : Z) (rs : raw_series) (fid : string) (k1 k2 : nat)
    (H5 : (5 <= length (since (today - (365 * 5 + 90)) (dropna rs)))%nat)
    (Hk1 : (k1 < length (since (today - (365 * 5 + 90)) (dropna rs)))%nat)
    (Hk2 : (k2 < length (since (today - (365 * 5 + 90)) (dropna rs)))%nat)
    (Hv : nth k1 (values (since (today - (365 * 5 + 90)) (dropna rs))) 0
          <= nth k2 (values (since (today - (365 * 5 + 90)) (dropna rs))) 0) :
  let sc := values (make_score_series today rs fid) in
  if is_invert fid then nth k2 sc 0 <= nth k1 sc 0 else nth k1 sc 0 <= nth k2 sc 0.
Proof.
  cbv zeta. unfold make_score_series. cbv zeta.
  set (hist := since (today - (365 * 5 + 90)) (dropna rs)) in *.
  destruct (Nat.ltb_spec (length hist) 5) as [H|_]; [lia|].
  unfold score_series_of, values. rewrite map_map.
  unfold values in Hv.
  rewrite (nth_map_lt _ hist k1 (0%Z, 0) 0 Hk1), (nth_map_lt _ hist k2 (0%Z, 0) 0 Hk2) in Hv.
  rewrite (nth_map_lt _ hist k1 (0%Z, 0) 0 Hk1), (nth_map_lt _ hist k2 (0%Z, 0) 0 Hk2).
  cbn beta.
  apply score_from_pct_mono. apply percentileofscore_rank_mono. exact Hv.
Qed.

Lemma make_score_series_order_witness :
  (5 <= length (since (today_ex - (365 * 5 + 90)) (dropna recent_series)))%nat /\
  (let sc := values (make_score_series today_ex recent_series "vix") in
   if is_invert "vix" then nth 7 sc 0 <= nth 2 sc 0 else nth 2 sc 0 <= nth 7 sc 0).
Proof.
  split; [vm_compute; lia|].
  apply make_score_series_order; vm_compute; try lia; discriminate.
Defined.

(** [get_status] is monotone: a score that is supportive stays supportive
    when it rises, and a restrictive score stays restrictive when it falls. *)
Theorem get_status_mono (x y : Q) (H : x <= y) :
  (get_status x = "supportive"%string -> get_status y = "supportive"%string) /\
  (get_status y = "restrictive"%string -> get_status x = "restrictive"%string).
Proof.
  unfold get_status.
  destruct (Qle_bool 66 x) eqn:A1; destruct (Qle_bool 66 y) eqn:B1;
  destruct (Qle_bool 33 x) eqn:A2; destruct (Qle_bool 33 y) eqn:B2;
  split; intro E; try discriminate; try reflexivity; exfalso;
  repeat match goal with
         | A : Qle_bool _ _ = true |- _ => apply Qle_bool_iff in A
         | A : Qle_bool _ _ = false |- _ =>
             apply Bool.not_true_iff_false in A; rewrite Qle_bool_iff in A
         end; lra.
Qed.

Lemma get_status_mono_witness :
  30 <= 70 /\
  (get_status 30 = "supportive"%string -> get_status 70 = "supportive"%string) /\
  (get_status 70 = "restrictive"%string -> get_status 30 = "restrictive"%string).
Proof. split; [lra | apply get_status_mono; lra]. Defined.

(** The velocity label depends only on the last eight values of the score
    series: values before them never change it. *)
Theorem get_velocity_last8 (pre l : list Q) (H : (8 <= length l)%nat) :
  get_velocity (pre ++ l) = get_velocity l.
Proof.
  unfold get_velocity. rewrite length_app.
  replace (Nat.ltb (length pre + length l) (7 + 1)) with false by (symmetry; apply Nat.ltb_ge; lia).
  replace (Nat.ltb (length l) (7 + 1)) with false by (symmetry; apply Nat.ltb_ge; lia).
  assert (Hl : l <> []) by (intro E; subst l; simpl in H; lia).
  unfold last_val. rewrite (last_app_nonnil pre l 0 Hl).
  unfold iloc_neg. rewrite length_app.
  rewrite app_nth2 by lia.
  replace (length pre + length l - (7 + 1) - length pre)%nat with (length l - (7 + 1))%nat by lia.
  reflexivity.
Qed.

Lemma get_velocity_last8_witness :
  (8 <= length [1; 2; 3; 4; 5; 6; 7; 8])%nat /\
  get_velocity ([50; 60] ++ [1; 2; 3; 4; 5; 6; 7; 8]) = get_velocity [1; 2; 3; 4; 5; 6; 7; 8].
Proof. split; [simpl; lia | apply get_velocity_last8; simpl; lia]. Defined.

(** ** numpy's percentile and the histogram *)

Lemma insert_sorted_perm (x : Q) (l : list Q) : Permutation (insert_sorted x l) (x :: l).
Proof.
  induction l as [|y l IH]; simpl; [reflexivity|].
  destruct (Qle_bool x y); [reflexivity|].
  rewrite IH. apply perm_swap.
Qed.

Lemma sort_q_perm (l : list Q) : Permutation (sort_q l) l.
Proof.
  induction l as [|x l IH]; simpl; [reflexivity|].
  rewrite insert_sorted_perm, IH. reflexivity.
Qed.

Lemma insert_sorted_Sorted (x : Q) (l : list Q) : Sorted Qle l -> Sorted Qle (insert_sorted x l).
Proof.
  induction l as [|y l IH]; intro Hs; simpl.
  - repeat constructor.
  - destruct (Qle_bool x y) eqn:E.
    + constructor; [exact Hs|]. constructor. apply Qle_bool_iff. exact E.
    + apply Sorted_inv in Hs as [Hs Hhd].
      assert (Hyx : y <= x).
      { apply Qlt_le_weak. apply Qnot_le_lt. intro H. apply Qle_bool_iff in H. congruence. }
      constructor; [apply IH; exact Hs|].
      destruct l as [|z l]; simpl; [constructor; exact Hyx|].
      destruct (Qle_bool x z); constructor; [exact Hyx|].
      apply HdRel_inv in Hhd. exact Hhd.
Qed.

Lemma sort_q_sorted (l : list Q) : StronglySorted Qle (sort_q l).
Proof.
  apply Sorted_StronglySorted; [exact Qle_trans|].
  induction l as [|x l IH]; simpl; [constructor|].
  apply insert_sorted_Sorted. exact IH.
Qed.

Lemma sorted_nth_mono (s : list Q) (i j : nat) :
  StronglySorted Qle s -> (i <= j)%nat -> (j < length s)%nat -> nth i s 0 <= nth j s 0.
Proof.
  intro Hs. revert i j. induction Hs as [|x s Hs IH Hall]; intros i j Hij Hj; simpl in *; [lia|].
  destruct i as [|i]; destruct j as [|j]; try lia.
  - apply Qle_refl.
  - rewrite Forall_forall in Hall. apply Hall. apply nth_In. lia.
  - apply IH; lia.
Qed.

Lemma Qmult_le_compat_l' (x y z : Q) : x <= y -> 0 <= z -> z * x <= z * y.
Proof. intros H Hz. rewrite !(Qmult_comm z). apply Qmult_le_compat_r; assumption. Qed.

Lemma interp_bounds (lo hi t : Q) :
  lo <= hi -> 0 <= t -> t <= 1 -> lo <= lo + (hi - lo) * t /\ lo + (hi - lo) * t <= hi.
Proof.
  intros H H0 H1. split.
  - assert (0 <= (hi - lo) * t) by (apply Qmult_le_0_compat; lra). lra.
  - assert ((hi - lo) * t <= (hi - lo) * 1) by (apply Qmult_le_compat_l'; lra). lra.
Qed.

Lemma interp_mono (lo hi t1 t2 : Q) :
  lo <= hi -> t1 <= t2 -> lo + (hi - lo) * t1 <= lo + (hi - lo) * t2.
Proof.
  intros H H12. assert ((hi - lo) * t1 <= (hi - lo) * t2) by (apply Qmult_le_compat_l'; lra). lra.
Qed.

(** The interpolation step of [np_percentile] at a virtual index [vi] with
    [0 <= vi < n - 1] stays between the two order statistics it joins. *)
Lemma np_interp_facts (s : list Q) (vi : Q) :
  StronglySorted Qle s -> 0 <= vi -> vi < Qnat (length s - 1) ->
  let k := Z.to_nat (Qfloor vi) in
  (S k < length s)%nat /\ inject_Z (Qfloor vi) == Qnat k /\
  0 <= vi - inject_Z (Qfloor vi) /\ vi - inject_Z (Qfloor vi) <= 1 /\
  nth k s 0 <= nth (S k) s 0.
Proof.
  intros Hs H0 HN k.
  assert (Hf0 : (0 <= Qfloor vi)%Z).
  { change 0%Z with (Qfloor 0). apply Qfloor_resp_le. exact H0. }
  pose proof (Qfloor_le vi) as Hf1. pose proof (Qlt_floor vi) as Hf2.
  rewrite inject_Z_plus in Hf2. change (inject_Z 1) with 1 in Hf2.
  assert (Hlt : (Qfloor vi < Z.of_nat (length s - 1))%Z).
  { rewrite Zlt_Qlt. unfold Qnat in HN. lra. }
  assert (Hk : Z.of_nat k = Qfloor vi) by (unfold k; apply Z2Nat.id; exact Hf0).
  assert (HSk : (S k < length s)%nat) by lia.
  split; [exact HSk|]. split; [unfold Qnat; rewrite Hk; reflexivity|].
  split; [lra|]. split; [lra|].
  apply sorted_nth_mono; [exact Hs | lia | exact HSk].
Qed.

Lemma Ok_inj {A} (a b : A) : Ok a = Ok b -> a = b.
Proof. intro H. injection H. intro E. exact E. Qed.

Lemma np_percentile_mono (a : list Q) (q1 q2 p1 p2 : Q) :
  0 <= q1 -> q1 <= q2 -> np_percentile a q1 = Ok p1 -> np_percentile a q2 = Ok p2 -> p1 <= p2.
Proof.
  intros Hq1 Hq12 E1 E2. destruct a as [|x a]; [discriminate|].
  unfold np_percentile in E1, E2.
  set (s := sort_q (x :: a)) in *.
  assert (Hs : StronglySorted Qle s) by apply sort_q_sorted.
  assert (Hn : (0 < length s)%nat).
  { unfold s. rewrite (Permutation_length (sort_q_perm (x :: a))). simpl. lia. }
  set (N := Qnat (length s - 1)) in *.
  assert (HN0 : 0 <= N) by apply Qnat_nonneg.
  set (vi1 := N * (q1 / 100)) in *. set (vi2 := N * (q2 / 100)) in *.
  assert (Hv1 : 0 <= vi1).
  { apply Qmult_le_0_compat; [exact HN0|]. apply Qle_shift_div_l; lra. }
  assert (Hv12 : vi1 <= vi2).
  { apply Qmult_le_compat_l'; [|exact HN0].
    unfold Qdiv. apply Qmult_le_compat_r; [exact Hq12|]. vm_compute. discriminate. }
  assert (Hlast : last_val s = nth (length s - 1) s 0) by apply last_nth.
  destruct (Qle_bool N vi1) eqn:B1; [apply Qle_bool_iff in B1 | ];
  destruct (Qle_bool N vi2) eqn:B2; try apply Qle_bool_iff in B2;
  apply Ok_inj in E1, E2; subst p1 p2.
  - apply Qle_refl.
  - exfalso. apply Bool.not_true_iff_false in B2. apply B2, Qle_bool_iff. lra.
  - apply Bool.not_true_iff_false in B1. rewrite Qle_bool_iff in B1.
    apply Qnot_le_lt in B1.
    destruct (np_interp_facts s vi1 Hs Hv1 B1) as [HSk [_ [Ht0 [Ht1 Hlh]]]].
    destruct (interp_bounds _ _ _ Hlh Ht0 Ht1) as [_ Hup].
    eapply Qle_trans; [exact Hup|]. rewrite Hlast.
    apply sorted_nth_mono; [exact Hs | lia | lia].
  - apply Bool.not_true_iff_false in B1, B2. rewrite Qle_bool_iff in B1, B2.
    apply Qnot_le_lt in B1, B2.
    destruct (np_interp_facts s vi1 Hs Hv1 B1) as [HSk1 [Hk1 [Ht10 [Ht11 Hlh1]]]].
    destruct (np_interp_facts s vi2 Hs (Qle_trans _ _ _ Hv1 Hv12) B2)
      as [HSk2 [Hk2 [Ht20 [Ht21 Hlh2]]]].
    assert (Hf : (Qfloor vi1 <= Qfloor vi2)%Z) by (apply Qfloor_resp_le; exact Hv12).
    destruct (Z.eq_dec (Qfloor vi1) (Qfloor vi2)) as [Ef|Nf].
    + rewrite Ef in *. apply interp_mono; [exact Hlh2 | lra].
    + destruct (interp_bounds _ _ _ Hlh1 Ht10 Ht11) as [_ Hup1].
      destruct (interp_bounds _ _ _ Hlh2 Ht20 Ht21) as [Hlo2 _].
      eapply Qle_trans; [exact Hup1|]. eapply Qle_trans; [|exact Hlo2].
      apply sorted_nth_mono; [exact Hs | | lia].
      assert (0 <= Qfloor vi1)%Z.
      { change 0%Z with (Qfloor 0). apply Qfloor_resp_le. exact Hv1. }
      lia.
Qed.

Lemma np_percentile_zero_min (a : list Q) (p v : Q) :
  np_percentile a 0 = Ok p -> In v a -> p <= v.
Proof.
  intros E Hv. destruct a as [|x a]; [destruct Hv|].
  unfold np_percentile in E.
  set (s := sort_q (x :: a)) in *.
  assert (Hs : StronglySorted Qle s) by apply sort_q_sorted.
  assert (Hperm : Permutation s (x :: a)) by apply sort_q_perm.
  assert (Hvs : In v s) by (apply (Permutation_in _ (Permutation_sym Hperm)); exact Hv).
  destruct (In_nth s v 0 Hvs) as [j [Hj <-]].
  assert (H0j : nth 0 s 0 <= nth j s 0) by (apply sorted_nth_mono; [exact Hs | lia | exact Hj]).
  set (N := Qnat (length s - 1)) in *.
  assert (Hvi : N * (0 / 100) == 0) by (unfold Qdiv; rewrite Qmult_0_l, Qmult_0_r; reflexivity).
  destruct (Qle_bool N (N * (0 / 100))) eqn:B; apply Ok_inj in E; subst p.
  - apply Qle_bool_iff in B. rewrite Hvi in B.
    assert (Hn1 : (length s - 1 = 0)%nat).
    { unfold N, Qnat, Qle in B. simpl in B. lia. }
    rewrite last_nth, Hn1. exact H0j.
  - rewrite (Qfloor_comp _ _ Hvi). simpl Qfloor. simpl Z.to_nat.
    rewrite Hvi. change (inject_Z 0) with 0.
    setoid_replace ((nth 1 s 0 - nth 0 s 0) * (0 - 0)) with 0 by ring.
    rewrite Qplus_0_r. exact H0j.
Qed.

Lemma np_percentile_ok (a : list Q) (q : Q) :
  a <> [] -> np_percentile a q = Ok (match np_percentile a q with Ok p => p | Err _ => 0 end).
Proof.
  intro Ha. destruct a as [|x a]; [contradiction|].
  unfold np_percentile. destruct (Qle_bool _ _); reflexivity.
Qed.

Lemma map_result_ok {A B} (f : A -> result B) (g : A -> B) (l : list A) :
  (forall x, In x l -> f x = Ok (g x)) -> map_result f l = Ok (map g l).
Proof.
  induction l as [|x l IH]; intro H; simpl; [reflexivity|].
  rewrite (H x (or_introl eq_refl)). simpl.
  rewrite IH; [reflexivity|]. intros y Hy. apply H. right. exact Hy.
Qed.

Lemma dist_bucket_ok (hist : list Q) (i : nat) :
  hist <> [] ->
  dist_bucket hist i
    = Ok (mk_bucket (i * 10) ((i + 1) * 10)
            (count_if (fun v =>
               Qle_bool (match np_percentile hist (Qnat (i * 10)) with Ok p => p | Err _ => 0 end) v
               && Qltb v (match np_percentile hist (py_min (Qnat ((i + 1) * 10)) (999 # 10)) with
                          | Ok p => p | Err _ => 0 end)) hist)).
Proof.
  intro H. unfold dist_bucket.
  rewrite (np_percentile_ok hist (Qnat (i * 10)) H).
  rewrite (np_percentile_ok hist (py_min (Qnat ((i + 1) * 10)) (999 # 10)) H).
  reflexivity.
Qed.

Lemma count_if_cons (p : Q -> bool) (v : Q) (l : list Q) :
  count_if p (v :: l) = ((if p v then 1 else 0) + count_if p l)%nat.
Proof. unfold count_if. simpl. destruct (p v); reflexivity. Qed.

Lemma list_sum_map_add {A} (f g : A -> nat) (l : list A) :
  list_sum (map (fun x => f x + g x)%nat l) = (list_sum (map f l) + list_sum (map g l))%nat.
Proof. induction l as [|x l IH]; simpl; [reflexivity|]. rewrite IH. lia. Qed.

Lemma sum_counts {I} (B : I -> Q -> bool) (is : list I) (l : list Q) :
  list_sum (map (fun i => count_if (B i) l) is)
  = list_sum (map (fun v => list_sum (map (fun i => if B i v then 1 else 0)%nat is)) l).
Proof.
  induction l as [|v l IH]; simpl.
  - induction is as [|i is IHi]; simpl; [reflexivity|]. rewrite IHi. reflexivity.
  - rewrite <- IH. rewrite <- list_sum_map_add.
    f_equal. apply map_ext. intro i. apply count_if_cons.
Qed.

Lemma count_if_as_sum (p : Q -> bool) (l : list Q) :
  count_if p l = list_sum (map (fun v => if p v then 1 else 0)%nat l).
Proof.
  induction l as [|v l IH]; [reflexivity|].
  rewrite count_if_cons, IH. reflexivity.
Qed.

(** Half-open intervals between increasing bounds [b 0 <= ... <= b m]:
    a value above [b 0] falls in exactly one of them iff it lies below
    [b m]. *)
Lemma chain_count (b : nat -> Q) (m : nat) (v : Q) :
  (forall i, (i < m)%nat -> b i <= b (S i)) -> b 0%nat <= v ->
  list_sum (map (fun i => if Qle_bool (b i) v && Qltb v (b (S i)) then 1 else 0)%nat (seq 0 m))
  = (if Qltb v (b m) then 1 else 0)%nat.
Proof.
  intros Hb H0. induction m as [|m IH].
  - simpl. destruct (Qltb v (b 0%nat)) eqn:E; [|reflexivity].
    apply Qltb_iff in E. exfalso. lra.
  - rewrite seq_S, map_app, list_sum_app. simpl.
    rewrite IH by (intros i Hi; apply Hb; lia).
    specialize (Hb m ltac:(lia)).
    destruct (Qltb v (b m)) eqn:E1; [apply Qltb_iff in E1 | apply Qltb_false in E1];
    destruct (Qltb v (b (S m))) eqn:E2; [apply Qltb_iff in E2 | apply Qltb_false in E2 | |];
    try (destruct (Qle_bool (b m) v) eqn:E3; simpl);
    try reflexivity;
    try (apply Qle_bool_iff in E3; exfalso; lra);
    exfalso;
    try (apply Bool.not_true_iff_false in E3; rewrite Qle_bool_iff in E3);
    lra.
Qed.

(** [percentile_dist] on an empty five-year window raises [IndexError]
    (numpy's percentile of an empty array); on a non-empty one it returns
    the ten buckets 0-10, 10-20, ..., 90-100, in this order. *)
Theorem percentile_dist_shape (today : Z) (s : series) :
  (values (since (today - 5 * 365) s) = [] ->
     percentile_dist today s = Err IndexError) /\
  (values (since (today - 5 * 365) s) <> [] ->
     exists bs, percentile_dist today s = Ok bs /\
       map (fun b => (range_lo b, range_hi b)) bs
       = [(0, 10); (10, 20); (20, 30); (30, 40); (40, 50);
          (50, 60); (60, 70); (70, 80); (80, 90); (90, 100)]%nat).
Proof.
  split; intro H.
  - unfold percentile_dist. cbv zeta. rewrite H. reflexivity.
  - eexists. split.
    + unfold percentile_dist. cbv zeta.
      apply map_result_ok. intros i _. apply dist_bucket_ok. exact H.
    + reflexivity.
Qed.

(** The bucket frequencies of [percentile_dist] add up to the number of
    five-year values strictly below the 99.9th percentile: the buckets
    partition that range, and the values at or above it (at least the
    maximum, whenever it is strictly above the rest) are in none. *)
Theorem percentile_dist_total (today : Z) (s : series) (bs : list bucket) (p : Q)
  (Hbs : percentile_dist today s = Ok bs)
  (Hp : np_percentile (values (since (today - 5 * 365) s)) (999 # 10) = Ok p) :
  list_sum (map freq bs)
  = count_if (fun v => Qltb v p) (values (since (today - 5 * 365) s)).
Proof.
  set (hist := values (since (today - 5 * 365) s)) in *.
  assert (Hne : hist <> []) by (intro E; rewrite E in Hp; discriminate).
  set (P := fun q => match np_percentile hist q with Ok p => p | Err _ => 0 end).
  assert (HP : forall q, np_percentile hist q = Ok (P q))
    by (intro q; apply np_percentile_ok; exact Hne).
  unfold percentile_dist in Hbs. cbv zeta in Hbs. fold hist in Hbs.
  rewrite (map_result_ok _ _ _ (fun i _ => dist_bucket_ok hist i Hne)) in Hbs.
  apply Ok_inj in Hbs. subst bs. rewrite map_map. simpl freq.
  rewrite sum_counts, count_if_as_sum.
  f_equal. apply map_ext_in. intros v Hv.
  set (b := fun i : nat => P (if (i <? 10)%nat then Qnat (i * 10) else 999 # 10)).
  assert (Hb10 : b 10%nat = p).
  { unfold b. simpl. rewrite HP in Hp. apply Ok_inj in Hp. exact Hp. }
  rewrite <- Hb10.
  rewrite <- (chain_count b 10 v).
  - apply f_equal. apply map_ext_in. intros i Hi.
    simpl in Hi. repeat destruct Hi as [<-|Hi]; try contradiction; reflexivity.
  - intros i Hi. unfold b.
    assert (Hm : forall q1 q2, 0 <= q1 -> q1 <= q2 -> q2 <= 100 -> P q1 <= P q2).
    { intros q1 q2 H1 H2 H3.
      apply (np_percentile_mono hist q1 q2 (P q1) (P q2)); auto. }
    assert (Hi' : (i = 0 \/ i = 1 \/ i = 2 \/ i = 3 \/ i = 4 \/ i = 5 \/ i = 6
                  \/ i = 7 \/ i = 8 \/ i = 9)%nat) by lia.
    repeat destruct Hi' as [->|Hi']; subst; simpl;
      apply Hm; vm_compute; discriminate.
  - unfold b. simpl. change (Qnat 0) with 0.
    apply (np_percentile_zero_min hist (P 0) v); [apply HP | exact Hv].
Qed.

Lemma percentile_dist_total_witness :
  match percentile_dist today_ex (dropna recent_series),
        np_percentile (values (since (today_ex - 5 * 365) (dropna recent_series))) (999 # 10) with
  | Ok bs, Ok p =>
      list_sum (map freq bs)
      = count_if (fun v => Qltb v p) (values (since (today_ex - 5 * 365) (dropna recent_series)))
  | _, _ => False
  end.
Proof.
  destruct (percentile_dist today_ex (dropna recent_series)) as [bs|e] eqn:E1;
    [|vm_compute in E1; discriminate].
  destruct (np_percentile (values (since (today_ex - 5 * 365) (dropna recent_series))) (999 # 10))
    as [p|e] eqn:E2; [|vm_compute in E2; discriminate].
  exact (percentile_dist_total today_ex (dropna recent_series) bs p E1 E2).
Defined.

(** ** Presentation helpers *)

Lemma dropna_app (a b : raw_series) : dropna (a ++ b) = dropna a ++ dropna b.
Proof. unfold dropna. apply flat_map_app. Qed.

(** [safe_last] skips trailing NaNs: appending a value makes it the result,
    appending a NaN changes nothing; a series with no value at all gives
    the fallback. *)
Theorem safe_last_append (s : raw_series) (d : Z) (v : option Q) (fallback : option Q) :
  safe_last (s ++ [(d, v)]) fallback
  = match v with Some x => Some x | None => safe_last s fallback end /\
  ((forall p, In p s -> snd p = None) -> safe_last s fallback = fallback).
Proof.
  split.
  - unfold safe_last. rewrite dropna_app. destruct v as [x|]; simpl.
    + destruct (dropna s ++ [(d, x)]) eqn:E; [destruct (dropna s); discriminate|].
      rewrite <- E. unfold values, last_val. rewrite map_app. simpl.
      rewrite last_last. reflexivity.
    + rewrite app_nil_r. reflexivity.
  - intro H. unfold safe_last.
    assert (E : dropna s = []).
    { induction s as [|p s IH]; [reflexivity|].
      simpl. rewrite (H p (or_introl eq_refl)). simpl. apply IH.
      intros q Hq. apply H. right. exact Hq. }
    rewrite E. reflexivity.
Qed.

(** The direction of [fmt_change] follows the sign of [val - prev], and
    NaN on either side reads ["flat"]. *)
Theorem fmt_change_direction (v p : Q) (unit : string) (bps : bool) :
  (snd (fmt_change (Some v) (Some p) unit bps) = "up"%string <-> p < v) /\
  (snd (fmt_change (Some v) (Some p) unit bps) = "down"%string <-> v < p) /\
  (snd (fmt_change (Some v) (Some p) unit bps) = "flat"%string <-> v == p) /\
  snd (fmt_change None (Some p) unit bps) = "flat"%string /\
  snd (fmt_change (Some v) None unit bps) = "flat"%string.
Proof.
  assert (H : snd (fmt_change (Some v) (Some p) unit bps)
              = if Qltb 0 (v - p) then "up"%string
                else if Qltb (v - p) 0 then "down"%string else "flat"%string)
    by (unfold fmt_change; destruct bps; reflexivity).
  rewrite H.
  destruct (Qltb (v - p) 0) eqn:E2; [apply Qltb_iff in E2 | apply Qltb_false in E2];
  destruct (Qltb 0 (v - p)) eqn:E1; (apply Qltb_iff in E1 || apply Qltb_false in E1);
  repeat split; intros;
  try discriminate; try reflexivity; try lra; exfalso; lra.
Qed.

Lemma round_half_even_small (r : Q) : 0 <= r -> r < 1 # 2 -> round_half_even r = 0%Z.
Proof.
  intros H0 H1.
  assert (Hf : Qfloor r = 0%Z).
  { apply Z.le_antisymm.
    - destruct (Z_le_gt_dec (Qfloor r) 0) as [Hle|Hgt]; [exact Hle|].
      exfalso. assert (Hl := Qfloor_le r).
      assert (H1' : 1 <= inject_Z (Qfloor r))
        by (change 1 with (inject_Z 1); rewrite <- Zle_Qle; lia).
      lra.
    - change 0%Z with (Qfloor (inject_Z 0)). apply Qfloor_resp_le. exact H0. }
  unfold round_half_even. rewrite Hf.
  replace (Qltb (r - inject_Z 0) (1 # 2)) with true; [reflexivity|].
  symmetry. apply Qltb_iff. change (inject_Z 0) with 0. lra.
Qed.

(** A fall of less than half a hundredth is reported as a fall with a
    signed zero: ["↘ -0.00"] followed by the unit, or ["↘ -0 bps"]. *)
Theorem fmt_change_tiny_fall (v p : Q) (unit : string)
  (H1 : -(1 # 200) < v - p) (H2 : v - p < 0) :
  fmt_change (Some v) (Some p) unit false = ("↘ -0.00" ++ unit, "down")%string /\
  fmt_change (Some v) (Some p) unit true = ("↘ -0 bps", "down")%string.
Proof.
  assert (Ed : Qltb (v - p) 0 = true) by (apply Qltb_iff; exact H2).
  assert (Eu : Qltb 0 (v - p) = false) by (apply Qltb_false; lra).
  assert (Ea : Qabs (v - p) == p - v) by (rewrite Qabs_neg; lra).
  assert (Eb : Qltb ((v - p) * 100) 0 = true) by (apply Qltb_iff; lra).
  assert (Ec : Qabs ((v - p) * 100) == (p - v) * 100) by (rewrite Qabs_neg; lra).
  assert (R2 : round_half_even (Qabs (v - p) * inject_Z (10 ^ Z.of_nat 2)) = 0%Z).
  { apply round_half_even_small; rewrite Ea; change (inject_Z (10 ^ Z.of_nat 2)) with 100; lra. }
  assert (R0 : round_half_even (Qabs ((v - p) * 100) * inject_Z (10 ^ Z.of_nat 0)) = 0%Z).
  { apply round_half_even_small; rewrite Ec; change (inject_Z (10 ^ Z.of_nat 0)) with 1; lra. }
  unfold fmt_change, fmt_signed_fixed. rewrite Ed, Eu, Eb, R2, R0.
  split; reflexivity.
Qed.

(** Python's [round] is off by at most half a unit of the last kept
    decimal. *)
Lemma round_half_even_err (r : Q) : Qabs (inject_Z (round_half_even r) - r) <= 1 # 2.
Proof.
  assert (Hl := Qfloor_le r). assert (Hu := Qlt_floor r).
  rewrite inject_Z_plus in Hu. change (inject_Z 1) with 1 in Hu.
  unfold round_half_even.
  destruct (Qltb (r - inject_Z (Qfloor r)) (1 # 2)) eqn:E1;
    [apply Qltb_iff in E1 | apply Qltb_false in E1].
  - apply Qabs_case; intros; lra.
  - destruct (Qltb (1 # 2) (r - inject_Z (Qfloor r))) eqn:E2;
      [apply Qltb_iff in E2 | apply Qltb_false in E2].
    + rewrite inject_Z_plus. change (inject_Z 1) with 1. apply Qabs_case; intros; lra.
    + destruct (Z.even (Qfloor r));
        [|rewrite inject_Z_plus; change (inject_Z 1) with 1];
        apply Qabs_case; intros; lra.
Qed.

Lemma py_round4_err (x : Q) : Qabs (py_round 4 x - x) <= 1 # 20000.
Proof.
  unfold py_round. change (inject_Z (10 ^ Z.of_nat 4)) with 10000.
  assert (H := round_half_even_err (x * 10000)).
  set (R := inject_Z (round_half_even (x * 10000))) in *.
  setoid_replace (R / 10000 - x) with ((R - x * 10000) * (1 # 10000)) by (field).
  rewrite Qabs_Qmult. change (Qabs (1 # 10000)) with (1 # 10000).
  setoid_replace (1 # 20000) with ((1 # 2) * (1 # 10000)) by reflexivity.
  apply Qmult_le_compat_r; [exact H | discriminate].
Qed.

(** [build_trend_data] returns one point per non-NaN observation among the
    last [days] of them (fewer when the series is shorter), each labelled
    with the observation's date and within [0.00005] of its value. *)
Theorem build_trend_data_points (s : raw_series) (days : nat) :
  length (build_trend_data s days) = Nat.min days (length (dropna s)) /\
  Forall2 (fun pt obs => fst pt = fmt_md (fst obs) /\ Qabs (snd pt - snd obs) <= 1 # 20000)
    (build_trend_data s days) (lastn days (dropna s)).
Proof.
  unfold build_trend_data. split.
  - rewrite length_map. unfold lastn. rewrite length_skipn. lia.
  - induction (lastn days (dropna s)) as [|o l IH]; simpl; constructor; [|exact IH].
    split; [reflexivity | apply py_round4_err].
Qed.

Lemma fmt_change_tiny_fall_witness :
  -(1 # 200) < (2 # 1) - (2001 # 1000) /\ (2 # 1) - (2001 # 1000) < 0 /\
  fmt_change (Some (2 # 1)) (Some (2001 # 1000)) "%" false = ("↘ -0.00" ++ "%", "down")%string /\
  fmt_change (Some (2 # 1)) (Some (2001 # 1000)) "%" true = ("↘ -0 bps", "down")%string.
Proof.
  split; [vm_compute; reflexivity|]. split; [vm_compute; reflexivity|].
  apply fmt_change_tiny_fall; vm_compute; reflexivity.
Defined.

Lemma safe_last_append_witness :
  (forall p, In p ([(1%Z, None); (2%Z, None)] : raw_series) -> snd p = None) /\
  safe_last ([(1%Z, None); (2%Z, None)] ++ [(3%Z, Some 5)]) (Some 0) = Some 5 /\
  safe_last [(1%Z, None); (2%Z, None)] (Some 0) = Some 0.
Proof.
  assert (H : forall p : Z * option Q, In p [(1%Z, None); (2%Z, None)] -> snd p = None)
    by (intros p [<-|[<-|[]]]; reflexivity).
  split; [exact H|].
  destruct (safe_last_append [(1%Z, None); (2%Z, None)] 3 (Some 5) (Some 0)) as [E1 E2].
  split; [exact E1 | exact (E2 H)].
Defined.

Lemma strongly_sorted_split {A} (R : A -> A -> Prop) (l1 l2 : list A) (x : A) :
  StronglySorted R (l1 ++ x :: l2) -> Forall (fun d => R d x) l1 /\ Forall (R x) l2.
Proof.
  induction l1 as [|y l1 IH]; simpl; intro H.
  - apply StronglySorted_inv in H. split; [constructor | apply H].
  - apply StronglySorted_inv in H. destruct H as [H Hy].
    destruct (IH H) as [H1 H2]. split; [|exact H2].
    constructor; [|exact H1].
    rewrite Forall_forall in Hy. apply Hy. apply in_or_app. right. left. reflexivity.
Qed.

Lemma pad_from_above (i : Z) (ds : list Z) (t best : Z) :
  Forall (fun d => (t < d)%Z) ds -> pad_from i ds t best = best.
Proof.
  intro H. destruct ds as [|d ds]; [reflexivity|]. simpl.
  inversion H as [|? ? Hd]; subst.
  destruct (d <=? t)%Z eqn:E; [lia | reflexivity].
Qed.

Lemma pad_from_hit (i : Z) (l1 l2 : list Z) (t best : Z) :
  Forall (fun d => (d < t)%Z) l1 -> Forall (fun d => (t < d)%Z) l2 ->
  pad_from i (l1 ++ t :: l2) t best = (i + Z.of_nat (length l1))%Z.
Proof.
  revert i best. induction l1 as [|d l1 IH]; intros i best H1 H2; simpl.
  - rewrite Z.leb_refl. rewrite pad_from_above by exact H2. lia.
  - inversion H1 as [|? ? Hd H1']; subst.
    destruct (d <=? t)%Z eqn:E; [|lia].
    rewrite IH by assumption. lia.
Qed.

Lemma bfill_from_hit (i : Z) (l1 l2 : list Z) (t : Z) :
  Forall (fun d => (d < t)%Z) l1 ->
  bfill_from i (l1 ++ t :: l2) t = (i + Z.of_nat (length l1))%Z.
Proof.
  revert i. induction l1 as [|d l1 IH]; intros i H1; simpl.
  - rewrite Z.leb_refl. lia.
  - inversion H1 as [|? ? Hd H1']; subst.
    destruct (t <=? d)%Z eqn:E; [lia|].
    rewrite IH by assumption. lia.
Qed.

Lemma get_nearest_hit (l1 l2 : list Z) (t : Z) :
  StronglySorted Z.lt (l1 ++ t :: l2) ->
  get_nearest (l1 ++ t :: l2) t = Z.of_nat (length l1).
Proof.
  intro H. destruct (strongly_sorted_split _ _ _ _ H) as [H1 H2].
  unfold get_nearest.
  rewrite pad_from_hit by assumption. rewrite bfill_from_hit by assumption.
  destruct (_ || _); lia.
Qed.

(** When the series has an observation exactly seven days before its last
    date, [make_factor]'s 7-day change compares the last value with that
    observation's value. *)
Theorem seven_day_change_exact (s : series) (k : nat) (v : Q) (change_bps : bool)
  (Hs : StronglySorted Z.lt (map fst s))
  (Hk : nth_error s k = Some ((last (map fst s) 0 - 7)%Z, v)) :
  seven_day_change s change_bps
  = fmt_change (Some (last_val (values s))) (Some v) "%" change_bps.
Proof.
  destruct (nth_error_split s k Hk) as (s1 & s2 & Es & Hl).
  unfold seven_day_change.
  set (t := (last (map fst s) 0 - 7)%Z) in *.
  assert (Hd : map fst s = map fst s1 ++ t :: map fst s2)
    by (rewrite Es, map_app; reflexivity).
  rewrite Hd in Hs |- *. fold t.
  rewrite <- Hd. fold t. rewrite Hd.
  rewrite get_nearest_hit by exact Hs.
  rewrite length_map, Hl.
  replace (Z.to_nat (Z.max 0 (Z.of_nat k))) with k by lia.
  unfold values. rewrite Es, map_app. rewrite app_nth2 by (rewrite length_map; lia).
  rewrite length_map, Hl, Nat.sub_diag. reflexivity.
Qed.

Lemma seven_day_change_exact_witness :
  StronglySorted Z.lt (map fst (dropna recent_series)) /\
  nth_error (dropna recent_series) 2
    = Some ((last (map fst (dropna recent_series)) 0 - 7)%Z, 3) /\
  seven_day_change (dropna recent_series) false
    = fmt_change (Some (last_val (values (dropna recent_series)))) (Some 3) "%" false.
Proof.
  assert (Hs : StronglySorted Z.lt (map fst (dropna recent_series))).
  { vm_compute. repeat (apply SSorted_cons || apply SSorted_nil);
      repeat (apply Forall_cons || apply Forall_nil); reflexivity. }
  assert (Hk : nth_error (dropna recent_series) 2
               = Some ((last (map fst (dropna recent_series)) 0 - 7)%Z, 3))
    by (vm_compute; reflexivity).
  split; [exact Hs|]. split; [exact Hk|].
  exact (seven_day_change_exact (dropna recent_series) 2 3 false Hs Hk).
Defined.

Ltac zbool :=
  symmetry;
  first [ apply Z.leb_le | apply Z.leb_gt | apply Z.ltb_lt | apply Z.ltb_ge
        | apply Z.eqb_eq | apply Z.eqb_neq ]; lia.

Lemma pad_from_below (i : Z) (A B : list Z) (t best : Z) :
  Forall (fun d => (d < t)%Z) A ->
  pad_from i (A ++ B) t best
  = pad_from (i + Z.of_nat (length A)) B t
      (match A with [] => best | _ :: _ => i + Z.of_nat (length A) - 1 end)%Z.
Proof.
  revert i best. induction A as [|d A IH]; intros i best H; simpl.
  - rewrite Z.add_0_r. reflexivity.
  - inversion H as [|? ? Hd HA]; subst.
    replace (d <=? t)%Z with true by zbool.
    rewrite IH by exact HA.
    replace (i + 1 + Z.of_nat (length A))%Z with (i + Z.pos (Pos.of_succ_nat (length A)))%Z by lia.
    destruct A; f_equal; simpl; lia.
Qed.

Lemma bfill_from_below (i : Z) (A B : list Z) (t : Z) :
  Forall (fun d => (d < t)%Z) A ->
  bfill_from i (A ++ B) t = bfill_from (i + Z.of_nat (length A)) B t.
Proof.
  revert i. induction A as [|d A IH]; intros i H; simpl.
  - rewrite Z.add_0_r. reflexivity.
  - inversion H as [|? ? Hd HA]; subst.
    replace (t <=? d)%Z with false by zbool.
    rewrite IH by exact HA. f_equal. lia.
Qed.

Lemma sorted_split_at (ds : list Z) (t : Z) :
  StronglySorted Z.lt ds ->
  exists A B, ds = A ++ B /\ Forall (fun d => (d < t)%Z) A /\ Forall (fun d => (t <= d)%Z) B.
Proof.
  induction ds as [|d ds IH]; intro H.
  - exists [], []. repeat constructor.
  - apply StronglySorted_inv in H. destruct H as [H Hd].
    destruct (Z_lt_le_dec d t) as [Hlt|Hge].
    + destruct (IH H) as (A & B & E & HA & HB).
      exists (d :: A), B. subst ds. repeat split; [constructor; assumption | exact HB].
    + exists [], (d :: ds). repeat split; [constructor|].
      constructor; [exact Hge|].
      rewrite Forall_forall in Hd |- *. intros x Hx. specialize (Hd x Hx). lia.
Qed.

Lemma z_at_last (ds : list Z) : ds <> [] -> z_at ds (-1) = nth (length ds - 1) ds 0%Z.
Proof.
  intro H. unfold z_at. simpl.
  replace (Z.of_nat (length ds) + -1)%Z with (Z.of_nat (length ds - 1)) by (destruct ds; [contradiction | simpl length; lia]).
  rewrite Nat2Z.id. reflexivity.
Qed.

Lemma z_at_nat (ds : list Z) (k : nat) : z_at ds (Z.of_nat k) = nth k ds 0%Z.
Proof. unfold z_at. replace (Z.of_nat k <? 0)%Z with false by zbool. rewrite Nat2Z.id. reflexivity. Qed.

(** On an increasing index, pandas' nearest lookup (as used for the 7-day
    change) returns a valid position whose date is at least as close to the
    target as every date of the index. *)
Theorem get_nearest_closest (ds : list Z) (t : Z)
  (Hs : StronglySorted Z.lt ds) (Hne : ds <> []) :
  (0 <= get_nearest ds t < Z.of_nat (length ds))%Z /\
  forall d, In d ds ->
    (Z.abs (nth (Z.to_nat (get_nearest ds t)) ds 0 - t) <= Z.abs (d - t))%Z.
Proof.
  destruct (sorted_split_at ds t Hs) as (A & B & E & HA & HB).
  assert (HA' := HA). assert (HB' := HB).
  rewrite Forall_forall in HA', HB'.
  unfold get_nearest. rewrite E. rewrite pad_from_below, bfill_from_below by exact HA.
  rewrite !Z.add_0_l.
  rewrite E in Hs, Hne. clear E.
  destruct B as [|b B'].
  - (* every date is before the target: the last one is chosen *)
    rewrite app_nil_r in *. simpl.
    destruct (exists_last Hne) as (A0 & a & EA). subst A.
    rewrite length_app. simpl.
    assert (Em : forall z : Z, match A0 ++ [a] with [] => (-1)%Z | _ :: _ => z end = z)
      by (destruct A0; reflexivity).
    rewrite !Em.
    replace (Z.of_nat (length A0 + 1) - 1)%Z with (Z.of_nat (length A0)) by lia.
    rewrite orb_true_r.
    rewrite <- (app_nil_r (A0 ++ [a])), <- app_assoc in Hs. simpl in Hs.
    destruct (strongly_sorted_split _ _ _ _ Hs) as [H0 _].
    rewrite Forall_forall in H0.
    rewrite Nat2Z.id, app_nth2, Nat.sub_diag by lia. simpl.
    split; [lia|].
    intros d Hd. apply in_app_or in Hd. destruct Hd as [Hd|[<-|[]]]; [|lia].
    specialize (H0 d Hd). assert (Ha := HA' a (in_or_app A0 [a] a (or_intror (or_introl eq_refl)))).
    lia.
  - assert (Hb : (t <= b)%Z) by (apply HB'; left; reflexivity).
    destruct (strongly_sorted_split _ _ _ _ Hs) as [HsA HsB].
    rewrite Forall_forall in HsA, HsB.
    assert (HbB : forall d, In d B' -> (b < d)%Z) by exact HsB.
    simpl bfill_from. replace (t <=? b)%Z with true by zbool.
    set (k := length A).
    assert (Hkb : z_at (A ++ b :: B') (Z.of_nat k) = b).
    { rewrite z_at_nat. unfold k. rewrite app_nth2, Nat.sub_diag by lia. reflexivity. }
    destruct (Z.eq_dec b t) as [Ebt|Nbt].
    + (* an exact match: both searches land on it *)
      subst b. simpl pad_from. rewrite Z.leb_refl.
      rewrite pad_from_above by (rewrite Forall_forall; exact HbB).
      destruct (_ || _); rewrite Nat2Z.id; unfold k; rewrite app_nth2, Nat.sub_diag by lia;
        simpl; (split; [rewrite length_app; simpl; lia | intros; lia]).
    + simpl pad_from. replace (b <=? t)%Z with false by zbool.
      replace (Z.of_nat k =? -1)%Z with false by zbool. rewrite orb_false_r.
      assert (Hfar : forall d, In d (A ++ b :: B') -> (b - t <= Z.abs (d - t))%Z \/ (d < t)%Z).
      { intros d Hd. apply in_app_or in Hd. destruct Hd as [Hd|[<-|Hd]].
        - right. apply HA'. exact Hd.
        - left. lia.
        - left. specialize (HbB d Hd). lia. }
      destruct A as [|a0 A0] eqn:EA.
      * (* every date is after the target: the first one is chosen *)
        rewrite Hkb. unfold k. simpl app. simpl length.
        rewrite (z_at_last (b :: B')) by discriminate.
        assert (Hin : In (nth (length (b :: B') - 1) (b :: B') 0%Z) (b :: B'))
          by (apply nth_In; simpl; lia).
        replace (Z.abs (nth (length (b :: B') - 1) (b :: B') 0 - t) <? Z.abs (b - t))%Z
          with false.
        2:{ symmetry. apply Z.ltb_ge. destruct (Hfar _ Hin) as [Hf|Hf]; [lia|].
            destruct Hin as [Hin|Hin]; [lia|]. specialize (HbB _ Hin). lia. }
        simpl. split; [lia|].
        intros d Hd. destruct (Hfar d Hd) as [Hf|Hf]; [lia|].
        destruct Hd as [<-|Hd]; [lia|]. specialize (HbB d Hd). lia.
      * (* the last date before and the first after the target compete *)
        unfold k in *. rewrite <- EA in *.
        assert (HAne : A <> []) by (rewrite EA; discriminate).
        destruct (exists_last HAne) as (A1 & a & EA1).
        replace (Z.of_nat (length A) - 1)%Z with (Z.of_nat (length A1))
          by (rewrite EA1, length_app; simpl length; lia).
        assert (Hka : z_at (A ++ b :: B') (Z.of_nat (length A1)) = a).
        { rewrite z_at_nat, EA1, <- app_assoc, app_nth2, Nat.sub_diag by lia. reflexivity. }
        assert (Hat : (a < t)%Z) by (apply HA'; rewrite EA1; apply in_or_app; right; left; reflexivity).
        assert (HaA : forall d, In d A -> (d <= a)%Z).
        { intros d Hd. rewrite EA1 in Hd. apply in_app_or in Hd. destruct Hd as [Hd|[<-|[]]]; [|lia].
          rewrite EA1, <- app_assoc in Hs. simpl in Hs.
          destruct (strongly_sorted_split _ _ _ _ Hs) as [H0 _]. rewrite Forall_forall in H0.
          specialize (H0 d Hd). lia. }
        rewrite Hka, Hkb.
        assert (HkA : (length A1 < length A)%nat) by (rewrite EA1, length_app; simpl; lia).
        assert (Hnth_a : nth (length A1) (A ++ b :: B') 0%Z = a).
        { rewrite EA1, <- app_assoc, app_nth2, Nat.sub_diag by lia. reflexivity. }
        assert (Hnth_b : nth (length A) (A ++ b :: B') 0%Z = b).
        { rewrite app_nth2, Nat.sub_diag by lia. reflexivity. }
        assert (Hclose : forall d, In d (A ++ b :: B') ->
                   (Z.min (t - a) (b - t) <= Z.abs (d - t))%Z).
        { intros d Hd. destruct (Hfar d Hd) as [Hf|Hf]; [lia|].
          apply in_app_or in Hd. destruct Hd as [Hd|[<-|Hd]].
          - specialize (HaA d Hd). lia.
          - lia.
          - specialize (HbB d Hd). lia. }
        destruct (Z.abs (a - t) <? Z.abs (b - t))%Z eqn:Ecmp;
          [apply Z.ltb_lt in Ecmp | apply Z.ltb_ge in Ecmp]; simpl.
        -- rewrite Nat2Z.id, Hnth_a. split; [rewrite length_app; simpl; lia|].
           intros d Hd. specialize (Hclose d Hd). lia.
        -- rewrite Nat2Z.id, Hnth_b. split; [rewrite length_app; simpl; lia|].
           intros d Hd. specialize (Hclose d Hd). lia.
Qed.

Lemma get_nearest_closest_witness :
  StronglySorted Z.lt [1; 2; 5; 9]%Z /\ [1; 2; 5; 9]%Z <> [] /\
  (0 <= get_nearest [1; 2; 5; 9] 4 < Z.of_nat (length [1; 2; 5; 9]%Z))%Z /\
  forall d, In d [1; 2; 5; 9]%Z ->
    (Z.abs (nth (Z.to_nat (get_nearest [1; 2; 5; 9] 4)) [1; 2; 5; 9] 0 - 4) <= Z.abs (d - 4))%Z.
Proof.
  assert (Hs : StronglySorted Z.lt [1; 2; 5; 9]%Z).
  { repeat (apply SSorted_cons || apply SSorted_nil);
      repeat (apply Forall_cons || apply Forall_nil); reflexivity. }
  assert (Hne : [1; 2; 5; 9]%Z <> []) by discriminate.
  split; [exact Hs|]. split; [exact Hne|].
  exact (get_nearest_closest [1; 2; 5; 9]%Z 4 Hs Hne).
Defined.

(** ** Building a module *)

Lemma dict_get_set {V} (d : list (string * V)) (k j : string) (v : V) :
  dict_get (dict_set d k v) j = if String.eqb j k then Some v else dict_get d j.
Proof.
  induction d as [|[k' v'] d IH]; simpl.
  - destruct (String.eqb j k); reflexivity.
  - destruct (String.eqb k k') eqn:E1.
    + apply String.eqb_eq in E1. subst k'. simpl.
      destruct (String.eqb j k); reflexivity.
    + simpl. rewrite IH.
      destruct (String.eqb j k') eqn:E2; [|reflexivity].
      apply String.eqb_eq in E2. subst k'.
      destruct (String.eqb j k) eqn:E3; [|reflexivity].
      apply String.eqb_eq in E3. subst j. rewrite String.eqb_refl in E1. discriminate.
Qed.

Lemma dict_mem_set {V} (d : list (string * V)) (k j : string) (v : V) :
  dict_mem (dict_set d k v) j = String.eqb j k || dict_mem d j.
Proof. unfold dict_mem. rewrite dict_get_set. destruct (String.eqb j k); reflexivity. Qed.

Lemma dict_set_vals {V} (P : V -> Prop) (d : list (string * V)) (k : string) (v : V) :
  (forall kv, In kv d -> P (snd kv)) -> P v -> forall kv, In kv (dict_set d k v) -> P (snd kv).
Proof.
  intros Hd Hv. induction d as [|[k' v'] d IH]; simpl.
  - intros kv [<-|[]]. exact Hv.
  - destruct (String.eqb k k').
    + intros kv [<-|Hkv]; [exact Hv | apply Hd; right; exact Hkv].
    + intros kv [<-|Hkv]; [apply Hd; left; reflexivity|].
      apply IH; [|exact Hkv]. intros kv' Hkv'. apply Hd. right. exact Hkv'.
Qed.

Lemma dict_update_vals {V} (P : V -> Prop) (d e : list (string * V)) :
  (forall kv, In kv d -> P (snd kv)) -> (forall kv, In kv e -> P (snd kv)) ->
  forall kv, In kv (dict_update d e) -> P (snd kv).
Proof.
  unfold dict_update. revert d. induction e as [|x e IH]; intros d Hd He; simpl; [exact Hd|].
  apply IH.
  - apply dict_set_vals; [exact Hd | apply He; left; reflexivity].
  - intros kv Hkv. apply He. right. exact Hkv.
Qed.

Lemma dict_get_In {V} (d : list (string * V)) (k : string) (v : V) :
  dict_get d k = Some v -> In (k, v) d.
Proof.
  induction d as [|[k' v'] d IH]; simpl; [discriminate|].
  destruct (String.eqb k k') eqn:E.
  - intro H. injection H as <-. apply String.eqb_eq in E. subst. left. reflexivity.
  - intro H. right. apply IH. exact H.
Qed.

(** A factor spec ([(fid, fname, fseries, fextra)]) whose series has at
    least ten observations. *)
Lemma make_factor_ok (today : Z) (fid name : string) (rs : raw_series) (ex : bool)
  (o : option factor) :
  make_factor today fid name rs ex = Ok o ->
  match o with
  | None => (length (dropna rs) < 10)%nat
  | Some f => (10 <= length (dropna rs))%nat /\ f_id f = fid /\ f_isExtra f = ex
  end.
Proof.
  unfold make_factor. cbv zeta.
  destruct (Nat.ltb_spec (length (dropna rs)) 10) as [Hl|Hl].
  - intro H. apply Ok_inj in H. subst o. exact Hl.
  - destruct (percentile_dist today (dropna rs)) as [pd|e]; cbn [bind]; [|discriminate].
    intro H. apply Ok_inj in H. subst o. simpl. auto.
Qed.

Lemma build_factors_spec (today : Z) (specs : list factor_spec) :
  forall factors fss factors' fss',
  build_factors today specs factors fss = Ok (factors', fss') ->
  map (fun f => (f_id f, f_isExtra f)) factors'
    = map (fun f => (f_id f, f_isExtra f)) factors
      ++ map (fun sp : factor_spec => (fst (fst (fst sp)), snd sp))
           (filter (fun sp : factor_spec => Nat.leb 10 (length (dropna (snd (fst sp))))) specs) /\
  (forall j, dict_mem fss' j
     = dict_mem fss j
       || existsb (String.eqb j)
            (map (fun sp : factor_spec => fst (fst (fst sp)))
               (filter (fun sp : factor_spec => Nat.leb 10 (length (dropna (snd (fst sp))))) specs))) /\
  (forall P : series -> Prop,
     (forall kv, In kv fss -> P (snd kv)) ->
     (forall (rs : raw_series) (fid : string), P (make_score_series today rs fid)) ->
     forall kv, In kv fss' -> P (snd kv)).
Proof.
  induction specs as [|[[[fid fname] fseries] fextra] specs IH];
    intros factors fss factors' fss' H; simpl in H.
  - apply Ok_inj in H. injection H as <- <-. simpl. rewrite app_nil_r.
    split; [reflexivity|]. split; [intro j; rewrite orb_false_r; reflexivity|].
    intros P HP _. exact HP.
  - destruct (make_factor today fid fname fseries fextra) as [o|e] eqn:Em; cbn [bind] in H;
      [|discriminate].
    apply make_factor_ok in Em.
    destruct o as [f|].
    + destruct Em as (Hl & Hid & Hex). cbn [filter fst snd].
      replace (Nat.leb 10 (length (dropna fseries))) with true
        by (symmetry; apply Nat.leb_le; exact Hl).
      cbn [filter map fst snd existsb].
      destruct (IH _ _ _ _ H) as (H1 & H2 & H3). split; [|split].
      * rewrite H1, map_app, <- app_assoc. cbn [map app fst snd]. rewrite Hid, Hex. reflexivity.
      * intro j. rewrite H2, dict_mem_set. cbn [existsb]. destruct (String.eqb j fid), (dict_mem fss j); reflexivity.
      * intros P HP Hm. apply H3; [|exact Hm].
        apply dict_set_vals; [exact HP | apply Hm].
    + cbn [filter fst snd]. replace (Nat.leb 10 (length (dropna fseries))) with false
        by (symmetry; apply Nat.leb_gt; exact Em).
      exact (IH _ _ _ _ H).
Qed.

Lemma filter_nil_false {A} (p : A -> bool) (l : list A) :
  filter p l = [] -> forall x, In x l -> p x = false.
Proof.
  intros H x Hx. destruct (p x) eqn:E; [|reflexivity].
  assert (Hin : In x (filter p l)) by (apply filter_In; auto).
  rewrite H in Hin. contradiction.
Qed.

(** [build_module_obj] keeps, in the order of [factor_specs], a factor for
    exactly the specs whose series has at least ten observations, and
    returns a score series for exactly those factor ids. A module is
    returned exactly when one of its kept factors is not an extra: a
    module whose kept factors are all extras (or that keeps none) is
    dropped ([None]), and the score series of its extras are dropped with
    it. *)
Theorem build_module_obj_factors (today : Z) (fwt : list (string * list (string * Q)))
  (slug name : string) (specs : list factor_spec)
  (r : option module) (fss : list (string * series))
  (H : build_module_obj today fwt slug name specs = Ok (r, fss)) :
  match r with
  | Some m =>
      map (fun f => (f_id f, f_isExtra f)) (m_factors m)
        = map (fun sp : factor_spec => (fst (fst (fst sp)), snd sp))
            (filter (fun sp : factor_spec => Nat.leb 10 (length (dropna (snd (fst sp))))) specs) /\
      (forall fid, dict_mem fss fid = existsb (String.eqb fid) (map f_id (m_factors m))) /\
      (exists sp : factor_spec, In sp specs /\
         (10 <= length (dropna (snd (fst sp))))%nat /\ snd sp = false)
  | None =>
      fss = [] /\
      (forall sp : factor_spec, In sp specs ->
         (10 <= length (dropna (snd (fst sp))))%nat -> snd sp = true)
  end.
Proof.
  unfold build_module_obj in H.
  destruct (build_factors today specs [] []) as [[factors fss0]|e] eqn:Eb; cbn [bind] in H;
    [|discriminate].
  apply build_factors_spec in Eb. destruct Eb as (H1 & H2 & _).
  cbn [map app] in H1.
  destruct (scored_of factors) as [|f0 rest] eqn:Es.
  - apply Ok_inj in H. injection H as <- <-. split; [reflexivity|].
    intros sp Hsp Hl.
    assert (Hin : In (fst (fst (fst sp)), snd sp)
                    (map (fun f => (f_id f, f_isExtra f)) factors)).
    { rewrite H1. apply (in_map (fun sp : factor_spec => (fst (fst (fst sp)), snd sp))).
      apply filter_In. split; [exact Hsp|].
      apply Nat.leb_le. exact Hl. }
    apply in_map_iff in Hin. destruct Hin as (f & Ef & Hf).
    injection Ef as _ <-.
    apply (filter_nil_false _ _ Es) in Hf. apply negb_false_iff in Hf. exact Hf.
  - destruct (module_score _ _) as [ms|e]; cbn [bind] in H; [|discriminate].
    apply Ok_inj in H. injection H as <- <-. simpl m_factors.
    split; [exact H1|]. split.
    + intro fid. rewrite H2. simpl dict_mem. rewrite orb_false_l.
      f_equal.
      replace (map f_id factors) with (map fst (map (fun f => (f_id f, f_isExtra f)) factors))
        by (rewrite map_map; reflexivity).
      rewrite H1, map_map. reflexivity.
    + assert (Hf0 : In f0 (scored_of factors)) by (rewrite Es; left; reflexivity).
      unfold scored_of in Hf0. apply filter_In in Hf0. destruct Hf0 as [Hf0 Hx].
      assert (Hin : In (f_id f0, f_isExtra f0) (map (fun f => (f_id f, f_isExtra f)) factors))
        by (apply (in_map (fun f => (f_id f, f_isExtra f))); exact Hf0).
      rewrite H1 in Hin. apply in_map_iff in Hin. destruct Hin as (sp & Esp & Hsp).
      apply filter_In in Hsp. destruct Hsp as [Hsp Hl].
      exists sp. split; [exact Hsp|]. split; [apply Nat.leb_le; exact Hl|].
      injection Esp as _ Ex. rewrite Ex. apply negb_true_iff. exact Hx.
Qed.

Lemma build_module_obj_factors_witness :
  (exists r fss,
    build_module_obj today_ex [] "m" "M" module_specs_ex = Ok (r, fss) /\
    match r with
    | Some m =>
        map (fun f => (f_id f, f_isExtra f)) (m_factors m)
          = map (fun sp : factor_spec => (fst (fst (fst sp)), snd sp))
              (filter (fun sp : factor_spec => Nat.leb 10 (length (dropna (snd (fst sp)))))
                 module_specs_ex) /\
        (forall fid, dict_mem fss fid = existsb (String.eqb fid) (map f_id (m_factors m))) /\
        (exists sp : factor_spec, In sp module_specs_ex /\
           (10 <= length (dropna (snd (fst sp))))%nat /\ snd sp = false)
    | None =>
        fss = [] /\
        (forall sp : factor_spec, In sp module_specs_ex ->
           (10 <= length (dropna (snd (fst sp))))%nat -> snd sp = true)
    end) /\
  (exists r fss,
    build_module_obj today_ex [] "m" "M" extras_only_specs_ex = Ok (r, fss) /\
    match r with
    | Some m =>
        map (fun f => (f_id f, f_isExtra f)) (m_factors m)
          = map (fun sp : factor_spec => (fst (fst (fst sp)), snd sp))
              (filter (fun sp : factor_spec => Nat.leb 10 (length (dropna (snd (fst sp)))))
                 extras_only_specs_ex) /\
        (forall fid, dict_mem fss fid = existsb (String.eqb fid) (map f_id (m_factors m))) /\
        (exists sp : factor_spec, In sp extras_only_specs_ex /\
           (10 <= length (dropna (snd (fst sp))))%nat /\ snd sp = false)
    | None =>
        fss = [] /\
        (forall sp : factor_spec, In sp extras_only_specs_ex ->
           (10 <= length (dropna (snd (fst sp))))%nat -> snd sp = true)
    end).
Proof.
  split.
  - destruct (build_module_obj today_ex [] "m" "M" module_specs_ex) as [[r fss]|e] eqn:E;
      [|vm_compute in E; discriminate].
    exists r, fss. split; [reflexivity|].
    exact (build_module_obj_factors today_ex [] "m" "M" module_specs_ex r fss E).
  - destruct (build_module_obj today_ex [] "m" "M" extras_only_specs_ex) as [[r fss]|e] eqn:E;
      [|vm_compute in E; discriminate].
    exists r, fss. split; [reflexivity|].
    exact (build_module_obj_factors today_ex [] "m" "M" extras_only_specs_ex r fss E).
Defined.

Lemma qsum_nonneg {A} (f : A -> Q) (l : list A) :
  (forall x, In x l -> 0 <= f x) -> 0 <= qsum (map f l).
Proof.
  induction l as [|x l IH]; intro H; simpl; [lra|].
  assert (H1 := H x (or_introl eq_refl)).
  assert (H2 : 0 <= qsum (map f l)) by (apply IH; intros y Hy; apply H; right; exact Hy).
  lra.
Qed.

Lemma weighted_sum_bounds {A} (s w : A -> Q) (l : list A) :
  (forall x, In x l -> 0 <= s x <= 100) -> (forall x, In x l -> 0 <= w x) ->
  0 <= qsum (map (fun x => s x * w x) l) <= 100 * qsum (map w l).
Proof.
  induction l as [|x l IH]; intros Hs Hw; simpl; [lra|].
  destruct (Hs x (or_introl eq_refl)) as [Hs0 Hs1].
  assert (Hw0 := Hw x (or_introl eq_refl)).
  destruct IH as [I0 I1];
    [intros y Hy; apply Hs; right; exact Hy | intros y Hy; apply Hw; right; exact Hy|].
  assert (0 <= s x * w x) by (apply Qmult_le_0_compat; assumption).
  assert (s x * w x <= 100 * w x) by (apply Qmult_le_compat_r; assumption).
  lra.
Qed.

Lemma dict_get_default_nonneg (fw : list (string * Q)) (k : string) (dflt : Q) :
  (forall k' w, In (k', w) fw -> 0 <= w) -> 0 <= dflt -> 0 <= dict_get_default fw k dflt.
Proof.
  intros Hfw Hd. unfold dict_get_default.
  destruct (dict_get fw k) as [w|] eqn:E; [|exact Hd].
  apply (Hfw k w). apply dict_get_In. exact E.
Qed.

Lemma Qnat_inv_nonneg (n : nat) : 0 <= 1 / Qnat n.
Proof.
  unfold Qdiv. rewrite Qmult_1_l. apply Qinv_le_0_compat.
  unfold Qnat. change 0 with (inject_Z 0). rewrite <- Zle_Qle. lia.
Qed.

(** The module score is a weighted mean of factor scores: with
    non-negative weights it stays in [[0, 100]]. *)
Lemma module_score_range (fw : list (string * Q)) (scored : list factor) (ms : Q) :
  (forall k w, In (k, w) fw -> 0 <= w) ->
  module_score fw scored = Ok ms -> 0 <= ms <= 100.
Proof.
  intros Hfw H. unfold module_score in H. cbv zeta in H.
  set (wf := fun f => dict_get_default fw (f_id f) (1 / Qnat (length scored))) in H.
  destruct (Qeq_bool _ 0) eqn:E0; [discriminate|].
  apply Ok_inj in H. subst ms.
  rewrite combine_map_map, map_map. cbn beta.
  set (W := qsum (map wf scored)).
  assert (Hw : forall f, In f scored -> 0 <= wf f)
    by (intros f _; apply dict_get_default_nonneg; [exact Hfw | apply Qnat_inv_nonneg]).
  destruct (weighted_sum_bounds (fun f => score_from_pct (f_hp5y f) (f_id f)) wf scored)
    as [B0 B1]; [intros f _; apply score_from_pct_bounds | exact Hw |].
  fold W in B1.
  assert (HW : 0 < W).
  { assert (HW0 : 0 <= W) by (apply qsum_nonneg; exact Hw).
    apply Qle_lteq in HW0. destruct HW0 as [HW0|HW0]; [exact HW0|].
    exfalso. apply Qeq_bool_neq in E0. apply E0. fold W. symmetry. exact HW0. }
  apply py_round1_bounds.
  - apply Qle_shift_div_l; [exact HW|]. simpl in B0 |- *. lra.
  - apply Qle_shift_div_r; [exact HW|]. simpl in B1 |- *. lra.
Qed.

Lemma lookup_date_In (d : Z) (s : series) (v : Q) : lookup_date d s = Some v -> In (d, v) s.
Proof.
  induction s as [|[d' v'] s IH]; simpl; [discriminate|].
  destruct (Z.eqb d d') eqn:E.
  - intro H. injection H as <-. apply Z.eqb_eq in E. subst. left. reflexivity.
  - intro H. right. apply IH. exact H.
Qed.

(** One cell of a weighted row sum is bounded by the weighted column
    bounds. *)
Lemma frame_cell_bounds (cols : list series) (ws : list Q) (U : series -> Q) (d : Z) :
  (forall c, In c cols -> 0 <= U c /\ forall p, In p c -> 0 <= snd p <= U c) ->
  (forall w, In w ws -> 0 <= w) ->
  0 <= qsum (map (fun cw => match lookup_date d (fst cw) with
                            | Some v => v * snd cw
                            | None => 0
                            end) (combine cols ws))
    <= qsum (map (fun cw => U (fst cw) * snd cw) (combine cols ws)).
Proof.
  revert ws. induction cols as [|c cols IH]; intros ws Hc Hw; [simpl; lra|].
  destruct ws as [|w ws]; [simpl; lra|]. simpl.
  destruct (IH ws) as [I0 I1];
    [intros c' Hc'; apply Hc; right; exact Hc' | intros w' Hw'; apply Hw; right; exact Hw'|].
  assert (Hw0 := Hw w (or_introl eq_refl)).
  destruct (Hc c (or_introl eq_refl)) as [HU Hp].
  assert (0 <= U c * w) by (apply Qmult_le_0_compat; assumption).
  destruct (lookup_date d c) as [v|] eqn:E; [|lra].
  apply lookup_date_In in E. destruct (Hp _ E) as [Hv0 Hv1]. simpl in Hv0, Hv1.
  assert (0 <= v * w) by (apply Qmult_le_0_compat; assumption).
  assert (v * w <= U c * w) by (apply Qmult_le_compat_r; assumption).
  lra.
Qed.

Lemma qsum_combine_const (cols : list series) (ws : list Q) (k : Q) :
  0 <= k -> (forall w, In w ws -> 0 <= w) ->
  qsum (map (fun cw => k * snd cw) (combine cols ws)) <= k * qsum ws.
Proof.
  intros Hk. revert ws. induction cols as [|c cols IH]; intros ws Hw.
  - simpl. assert (0 <= qsum ws).
    { clear -Hw. induction ws as [|w ws IHw]; simpl; [lra|].
      assert (0 <= w) by (apply Hw; left; reflexivity).
      assert (0 <= qsum ws) by (apply IHw; intros; apply Hw; right; assumption). lra. }
    assert (0 <= k * qsum ws) by (apply Qmult_le_0_compat; assumption). lra.
  - destruct ws as [|w ws]; simpl; [lra|].
    assert (qsum (map (fun cw => k * snd cw) (combine cols ws)) <= k * qsum ws)
      by (apply IH; intros; apply Hw; right; assumption).
    lra.
Qed.

Lemma frame_wsum_bounds (cols : list series) (ws : list Q) :
  (forall c, In c cols -> forall p, In p c -> 0 <= snd p <= 100) ->
  (forall w, In w ws -> 0 <= w) -> qsum ws <= 1 ->
  forall p, In p (frame_wsum cols ws) -> 0 <= snd p <= 100.
Proof.
  intros Hc Hw Hs p Hp. unfold frame_wsum in Hp.
  apply in_map_iff in Hp. destruct Hp as (d & <- & _). simpl.
  destruct (frame_cell_bounds cols ws (fun _ => 100) d) as [B0 B1];
    [intros c Hc'; split; [lra | apply Hc; exact Hc'] | exact Hw |].
  assert (B2 := qsum_combine_const cols ws 100 ltac:(lra) Hw).
  lra.
Qed.

Lemma normalized_weights (ws : list Q) :
  (forall w, In w ws -> 0 <= w) ->
  (forall w, In w (map (fun w => w / qsum ws) ws) -> 0 <= w) /\
  qsum (map (fun w => w / qsum ws) ws) <= 1.
Proof.
  intro Hw.
  assert (HS : 0 <= qsum ws).
  { rewrite <- (map_id ws) at 1. apply qsum_nonneg. exact Hw. }
  split.
  - intros w' Hw'. apply in_map_iff in Hw'. destruct Hw' as (w & <- & Hin).
    unfold Qdiv. apply Qmult_le_0_compat; [apply Hw; exact Hin | apply Qinv_le_0_compat; exact HS].
  - destruct (Qeq_dec (qsum ws) 0) as [E|E].
    + rewrite (qsum_map_ext _ (fun _ => 0)).
      * clear. induction ws as [|w ws IH]; simpl; lra.
      * intros w _. unfold Qdiv. rewrite E. change (/ 0) with 0. apply Qmult_0_r.
    + replace (map (fun w => w / qsum ws) ws) with (map (fun w => id w / qsum ws) ws)
        by reflexivity.
      rewrite (qsum_div id ws (qsum ws) E). rewrite map_id.
      unfold Qdiv. rewrite Qmult_inv_r by exact E. lra.
Qed.

Lemma module_history_range (fw : list (string * Q)) (ids : list string)
  (fss : list (string * series)) :
  (forall k w, In (k, w) fw -> 0 <= w) ->
  (forall kv, In kv fss -> forall p, In p (snd kv) -> 0 <= snd p <= 100) ->
  forall p, In p (module_history fw ids fss) -> 0 <= snd p <= 100.
Proof.
  intros Hfw Hfss. unfold module_history. cbv zeta.
  set (valid := filter _ ids).
  destruct (map (fun fid => dict_get_default fss fid []) valid) as [|c0 cs] eqn:Ess;
    [intros p []|].
  rewrite <- Ess.
  destruct (normalized_weights (map (fun fid => dict_get_default fw fid (1 / Qnat (length valid))) valid))
    as [N0 N1].
  { intros w Hw. apply in_map_iff in Hw. destruct Hw as (fid & <- & _).
    apply dict_get_default_nonneg; [exact Hfw | apply Qnat_inv_nonneg]. }
  apply frame_wsum_bounds; [|exact N0 | exact N1].
  intros c Hc. apply in_map_iff in Hc. destruct Hc as (fid & <- & _).
  unfold dict_get_default. destruct (dict_get fss fid) as [ss|] eqn:E; [|intros p []].
  apply dict_get_In in E. exact (Hfss _ E).
Qed.

Lemma make_score_series_range (today : Z) (rs : raw_series) (fid : string) :
  forall p, In p (make_score_series today rs fid) -> 0 <= snd p <= 100.
Proof.
  unfold make_score_series. cbv zeta.
  destruct (Nat.ltb _ 5); [intros p []|].
  intros p Hp. unfold score_series_of in Hp.
  apply in_map_iff in Hp. destruct Hp as (q & <- & _). apply score_from_pct_bounds.
Qed.

Lemma pct_rank_range (today : Z) (s : series) : 0 <= pct_rank today s <= 100.
Proof.
  unfold pct_rank. cbv zeta.
  destruct (Nat.ltb _ 2); [split; lra | apply percentileofscore_rank_bounds].
Qed.

Lemma py_round_zero (nd : nat) : py_round nd 0 == 0.
Proof.
  unfold py_round.
  rewrite (round_half_even_comp (0 * inject_Z (10 ^ Z.of_nat nd)) 0) by apply Qmult_0_l.
  change (round_half_even 0) with 0%Z. unfold Qdiv. apply Qmult_0_l.
Qed.

(** What [build_module_obj] guarantees about the numbers of a module, for
    non-negative factor weights. *)
Lemma build_module_obj_range (today : Z) (fwt : list (string * list (string * Q)))
  (slug name : string) (specs : list factor_spec) (m : module) (fss : list (string * series)) :
  build_module_obj today fwt slug name specs = Ok (Some m, fss) ->
  (forall k w, In (k, w) (dict_get_default fwt slug []) -> 0 <= w) ->
  (0 <= m_score m <= 100 /\ 0 <= m_prevScore m <= 100 /\ 0 <= m_percentile5Y m <= 100) /\
  (m_prevScore m <= m_score m -> 0 <= m_sevenDayChangePct m) /\
  (m_score m <= m_prevScore m -> m_sevenDayChangePct m <= 0) /\
  (forall kv, In kv fss -> forall p, In p (snd kv) -> 0 <= snd p <= 100).
Proof.
  intros H Hfw. unfold build_module_obj in H.
  destruct (build_factors today specs [] []) as [[factors fss0]|e] eqn:Eb; cbn [bind] in H;
    [|discriminate].
  apply build_factors_spec in Eb. destruct Eb as (_ & _ & H3).
  assert (Hfss0 : forall kv, In kv fss0 -> forall p, In p (snd kv) -> 0 <= snd p <= 100).
  { apply (H3 (fun ss => forall p, In p ss -> 0 <= snd p <= 100)).
    - intros kv [].
    - apply make_score_series_range. }
  destruct (scored_of factors) as [|f0 rest] eqn:Es; [discriminate|].
  destruct (module_score _ _) as [ms|e] eqn:Ems; cbn [bind] in H; [|discriminate].
  apply module_score_range in Ems; [|exact Hfw].
  apply Ok_inj in H. injection H as <- <-. cbn [m_score m_prevScore m_percentile5Y m_sevenDayChangePct].
  set (ts := values (module_history _ _ fss0)).
  assert (Hts : forall v, In v ts -> 0 <= v <= 100).
  { intros v Hv. unfold ts, values in Hv. apply in_map_iff in Hv. destruct Hv as (p & <- & Hp).
    exact (module_history_range _ _ _ Hfw Hfss0 p Hp). }
  assert (Hprev : 0 <= (if Nat.ltb 7 (length ts) then py_round 1 (iloc_neg 8 ts) else ms) <= 100).
  { destruct (Nat.ltb_spec 7 (length ts)) as [Hl|Hl]; [|exact Ems].
    apply py_round1_bounds; apply Hts; unfold iloc_neg; apply nth_In; lia. }
  set (prev := if Nat.ltb 7 (length ts) then py_round 1 (iloc_neg 8 ts) else ms) in *.
  assert (Hmax : 0 < py_max prev (1 # 100)).
  { unfold py_max. destruct (Qltb prev (1 # 100)) eqn:E;
      [reflexivity | apply Qltb_false in E; lra]. }
  split; [split; [exact Ems | split; [exact Hprev|]]|].
  { destruct (Nat.ltb 10 (length ts)); [|split; lra].
    apply py_round1_bounds; apply pct_rank_range. }
  split; [|split; [|exact Hfss0]].
  - intro Hle. rewrite <- (py_round_zero 2). apply py_round_mono.
    unfold Qdiv. apply Qmult_le_0_compat; [|lra].
    apply Qmult_le_0_compat; [lra|]. apply Qinv_le_0_compat. lra.
  - intro Hle. rewrite <- (py_round_zero 2). apply py_round_mono.
    setoid_replace ((ms - prev) / py_max prev (1 # 100) * 100)
      with (- ((prev - ms) / py_max prev (1 # 100) * 100)) by (field; lra).
    assert (0 <= (prev - ms) / py_max prev (1 # 100) * 100).
    { unfold Qdiv. apply Qmult_le_0_compat; [|lra].
      apply Qmult_le_0_compat; [lra|]. apply Qinv_le_0_compat. lra. }
    lra.
Qed.

(** For non-negative factor weights, the score, previous score and
    five-year percentile of a module built by [build_module_obj] lie in
    [[0, 100]], the sign of its 7-day change follows [score - prevScore],
    and every point of the factor score series it returns lies in
    [[0, 100]]. *)
Theorem build_module_obj_scores (today : Z) (fwt : list (string * list (string * Q)))
  (slug name : string) (specs : list factor_spec) (m : module) (fss : list (string * series))
  (H : build_module_obj today fwt slug name specs = Ok (Some m, fss))
  (Hfw : forall k w, In (k, w) (dict_get_default fwt slug []) -> 0 <= w) :
  (0 <= m_score m <= 100 /\ 0 <= m_prevScore m <= 100 /\ 0 <= m_percentile5Y m <= 100) /\
  (m_prevScore m <= m_score m -> 0 <= m_sevenDayChangePct m) /\
  (m_score m <= m_prevScore m -> m_sevenDayChangePct m <= 0) /\
  (forall kv, In kv fss -> forall p, In p (snd kv) -> 0 <= snd p <= 100).
Proof. exact (build_module_obj_range today fwt slug name specs m fss H Hfw). Qed.

Lemma build_modules_range (today : Z) (fwt : list (string * list (string * Q)))
  (specs : list (string * (string * list factor_spec))) :
  (forall slug k w, In (k, w) (dict_get_default fwt slug []) -> 0 <= w) ->
  forall modules afss modules' afss',
  build_modules today fwt specs modules afss = Ok (modules', afss') ->
  (forall sm, In sm modules ->
     0 <= m_score (snd sm) <= 100 /\ 0 <= m_prevScore (snd sm) <= 100 /\
     0 <= m_percentile5Y (snd sm) <= 100) ->
  (forall kv, In kv afss -> forall p, In p (snd kv) -> 0 <= snd p <= 100) ->
  (forall sm, In sm modules' ->
     0 <= m_score (snd sm) <= 100 /\ 0 <= m_prevScore (snd sm) <= 100 /\
     0 <= m_percentile5Y (snd sm) <= 100) /\
  (forall kv, In kv afss' -> forall p, In p (snd kv) -> 0 <= snd p <= 100).
Proof.
  intros Hfwt. induction specs as [|[slug [mname fspecs]] specs IH];
    intros modules afss modules' afss' H Hm Ha; simpl in H.
  - apply Ok_inj in H. injection H as <- <-. split; assumption.
  - destruct (build_module_obj today fwt slug mname fspecs) as [[[m|] fss]|e] eqn:Eb;
      cbn [bind] in H; [| exact (IH _ _ _ _ H Hm Ha) | discriminate].
    destruct (build_module_obj_range _ _ _ _ _ _ _ Eb (Hfwt slug)) as (Hr & _ & _ & Hf).
    apply (IH _ _ _ _ H).
    + apply (dict_set_vals (fun m => 0 <= m_score m <= 100 /\ 0 <= m_prevScore m <= 100 /\
                                      0 <= m_percentile5Y m <= 100)); assumption.
    + apply (dict_update_vals (fun ss => forall p, In p ss -> 0 <= snd p <= 100)); assumption.
Qed.

Lemma present_In (mw : list (string * Q)) (modules : list (string * module)) x :
  In x (present mw modules) ->
  In (fst (fst x), snd (fst x)) mw /\ dict_get modules (fst (fst x)) = Some (snd x).
Proof.
  unfold present. intro H. apply in_flat_map in H. destruct H as ([s w] & Hsw & Hx).
  simpl in Hx. destruct (dict_get modules s) as [m|] eqn:E; [|destruct Hx].
  destruct Hx as [<-|[]]. simpl. split; assumption.
Qed.

Lemma present_sum_bounds (mw : list (string * Q)) (modules : list (string * module))
  (g : module -> Q) :
  (forall k w, In (k, w) mw -> 0 <= w) ->
  (forall sm, In sm modules -> 0 <= g (snd sm) <= 100) ->
  0 <= qsum (map (fun x => g (snd x) * snd (fst x)) (present mw modules))
    <= 100 * qsum (map snd mw).
Proof.
  intros Hmw Hm.
  assert (Hp : forall x, In x (present mw modules) -> 0 <= g (snd x) <= 100 /\ 0 <= snd (fst x)).
  { intros x Hx. apply present_In in Hx. destruct Hx as [H1 H2].
    split; [apply dict_get_In in H2; exact (Hm _ H2) | exact (Hmw _ _ H1)]. }
  destruct (weighted_sum_bounds (fun x => g (snd x)) (fun x => snd (fst x)) (present mw modules))
    as [B0 B1]; [intros x Hx; apply Hp, Hx | intros x Hx; apply Hp, Hx |].
  split; [exact B0|].
  assert (Hsub : qsum (map (fun x => snd (fst x)) (present mw modules)) <= qsum (map snd mw)).
  { clear -Hmw. induction mw as [|[s w] mw IH]; [simpl; lra|].
    unfold present in *. simpl.
    assert (Hw : 0 <= w) by (apply (Hmw s); left; reflexivity).
    assert (IH' : qsum (map (fun x => snd (fst x)) (flat_map (fun sw => match dict_get modules (fst sw) with
                      | Some m => [(fst sw, snd sw, m)] | None => [] end) mw)) <= qsum (map snd mw))
      by (apply IH; intros k w' H; apply (Hmw k); right; exact H).
    destruct (dict_get modules s); simpl; lra. }
  lra.
Qed.

Lemma py_max_eq (a b : Q) : py_max a b = if Qltb a b then b else a.
Proof. reflexivity. Qed.

Lemma fold_max_ge (l : list Q) (v : Q) : In v l -> v <= fold_right py_max 0 l.
Proof.
  induction l as [|x l IH]; intro H; [destruct H|].
  simpl. rewrite py_max_eq.
  destruct (Qltb x (fold_right py_max 0 l)) eqn:E;
    (apply Qltb_iff in E || apply Qltb_false in E);
    (destruct H as [<-|Hv]; [lra | specialize (IH Hv); lra]).
Qed.

Lemma fold_max_nonneg (l : list Q) : 0 <= fold_right py_max 0 l.
Proof.
  induction l as [|x l IH]; simpl; [lra|].
  rewrite py_max_eq. destruct (Qltb x (fold_right py_max 0 l)) eqn:E;
    (apply Qltb_iff in E || apply Qltb_false in E); lra.
Qed.

Lemma fold_max_le (l : list Q) (B : Q) :
  0 <= B -> (forall v, In v l -> v <= B) -> fold_right py_max 0 l <= B.
Proof.
  intros HB. induction l as [|x l IH]; simpl; intro H; [exact HB|].
  assert (Hx := H x (or_introl eq_refl)).
  assert (Hl : fold_right py_max 0 l <= B) by (apply IH; intros v Hv; apply H; right; exact Hv).
  rewrite py_max_eq. destruct (Qltb x (fold_right py_max 0 l)); assumption.
Qed.

Lemma qsum_combine_ones (f : series -> Q) (l : list series) :
  qsum (map (fun cw => f (fst cw) * snd cw) (combine l (map (fun _ => 1) l)))
  = qsum (map (fun c => f c * 1) l).
Proof. induction l as [|c l IH]; simpl; [reflexivity | rewrite IH; reflexivity]. Qed.

Lemma overall_ts_range (mw : list (string * Q)) (fwt : list (string * list (string * Q)))
  (modules : list (string * module)) (afss : list (string * series)) :
  (forall k w, In (k, w) mw -> 0 <= w) -> qsum (map snd mw) <= 1 ->
  (forall slug k w, In (k, w) (dict_get_default fwt slug []) -> 0 <= w) ->
  (forall kv, In kv afss -> forall p, In p (snd kv) -> 0 <= snd p <= 100) ->
  forall p, In p (overall_ts mw fwt modules afss) -> 0 <= snd p <= 100.
Proof.
  intros Hmw Hs Hfwt Ha p Hp. unfold overall_ts in Hp.
  set (F := fun x : string * Q * module =>
              let '(slug, w, m) := x in
              match module_history (dict_get_default fwt slug []) (scored_ids_of m) afss with
              | [] => []
              | ts => [series_scale ts w]
              end) in Hp.
  set (parts := flat_map F (present mw modules)) in Hp.
  assert (Hparts : forall c, In c parts ->
            exists x, In x (present mw modules) /\
              forall q, In q c -> 0 <= snd q <= 100 * snd (fst x)).
  { intros c Hc. apply in_flat_map in Hc. destruct Hc as ([[slug w] m] & Hx & Hc).
    exists (slug, w, m). split; [exact Hx|].
    assert (Hw : 0 <= w) by (apply present_In in Hx; exact (Hmw _ _ (proj1 Hx))).
    unfold F in Hc.
    destruct (module_history (dict_get_default fwt slug []) (scored_ids_of m) afss) as [|h t] eqn:Eh;
      [destruct Hc|].
    destruct Hc as [<-|[]]. rewrite <- Eh.
    intros q Hq. unfold series_scale in Hq. apply in_map_iff in Hq.
    destruct Hq as (q0 & <- & Hq0). simpl.
    destruct (module_history_range _ _ _ (Hfwt slug) Ha q0 Hq0) as [Q0 Q1].
    split; [apply Qmult_le_0_compat; assumption|].
    simpl. apply Qmult_le_compat_r; assumption. }
  destruct parts as [|c0 cs] eqn:Ep; [destruct Hp|].
  rewrite <- Ep in Hp, Hparts.
  unfold frame_wsum in Hp. apply in_map_iff in Hp. destruct Hp as (d & <- & _). simpl.
  destruct (frame_cell_bounds parts (map (fun _ => 1) parts)
              (fun c => fold_right py_max 0 (values c)) d) as [B0 B1].
  { intros c Hc. split; [apply fold_max_nonneg|].
    intros q Hq. destruct (Hparts c Hc) as (x & _ & Hx). split; [apply (Hx q Hq)|].
    apply fold_max_ge. apply in_map. exact Hq. }
  { intros w Hw. apply in_map_iff in Hw. destruct Hw as (_ & <- & _). lra. }
  split; [exact B0|].
  rewrite (qsum_combine_ones (fun c => fold_right py_max 0 (values c)) parts) in B1.
  assert (B2 : qsum (map (fun c => fold_right py_max 0 (values c) * 1) parts)
               <= qsum (map (fun x => 100 * snd (fst x)) (present mw modules))).
  { unfold parts. rewrite qsum_flat_map.
    assert (Hle : forall x, In x (present mw modules) ->
              qsum (map (fun c => fold_right py_max 0 (values c) * 1) (F x)) <= 100 * snd (fst x)).
    { intros [[slug w] m] Hx.
      assert (Hw : 0 <= w) by (apply present_In in Hx; exact (Hmw _ _ (proj1 Hx))).
      unfold F.
      destruct (module_history (dict_get_default fwt slug []) (scored_ids_of m) afss) as [|h t] eqn:Eh;
        cbv beta iota; [simpl; lra|].
      rewrite <- Eh. cbn [map qsum fold_right fst snd].
      assert (fold_right py_max 0 (values (series_scale (module_history (dict_get_default fwt slug [])
                 (scored_ids_of m) afss) w)) <= 100 * w).
      { apply fold_max_le; [lra|]. intros v Hv. rewrite values_scale in Hv.
        apply in_map_iff in Hv. destruct Hv as (v0 & <- & Hv0).
        unfold values in Hv0. apply in_map_iff in Hv0. destruct Hv0 as (q0 & <- & Hq0).
        destruct (module_history_range _ _ _ (Hfwt slug) Ha q0 Hq0) as [Q0 Q1].
        simpl. apply Qmult_le_compat_r; assumption. }
      lra. }
    clear -Hle. induction (present mw modules) as [|x l IH]; simpl; [lra|].
    assert (H1 := Hle x (or_introl eq_refl)).
    assert (H2 : qsum (map (fun x => qsum (map (fun c => fold_right py_max 0 (values c) * 1) (F x))) l)
                 <= qsum (map (fun x => 100 * snd (fst x)) l))
      by (apply IH; intros y Hy; apply Hle; right; exact Hy).
    lra. }
  destruct (present_sum_bounds mw modules (fun _ => 100) Hmw) as [_ B3];
    [intros; lra|].
  lra.
Qed.

(** For non-negative module weights summing to at most 1 (the seven
    [1/7] of [MODULE_WEIGHTS]) and non-negative factor weights, every
    number of a finished run is a score in [[0, 100]]: the overall score,
    the previous overall score, the overall five-year percentile, every
    point of the overall history, and the score, previous score and
    percentile of every module. *)
Theorem run_with_range (today : Z) (mw : list (string * Q))
  (fwt : list (string * list (string * Q)))
  (specs : list (string * (string * list factor_spec))) (d : dashboard)
  (H : run_with today mw fwt specs = Ok d)
  (Hmw : forall k w, In (k, w) mw -> 0 <= w) (Hs : qsum (map snd mw) <= 1)
  (Hfwt : forall slug k w, In (k, w) (dict_get_default fwt slug []) -> 0 <= w) :
  0 <= d_score d <= 100 /\ 0 <= d_prevScore d <= 100 /\ 0 <= d_percentile5Y d <= 100 /\
  (forall p, In p (d_history d) -> 0 <= snd p <= 100) /\
  (forall sm, In sm (d_modules d) ->
     0 <= m_score (snd sm) <= 100 /\ 0 <= m_prevScore (snd sm) <= 100 /\
     0 <= m_percentile5Y (snd sm) <= 100).
Proof.
  unfold run_with in H.
  destruct (build_modules today fwt specs [] []) as [[modules afss]|e] eqn:Eb;
    cbn [bind] in H; [|discriminate].
  apply Ok_inj in H. subst d. cbn [d_score d_prevScore d_percentile5Y d_history d_modules].
  destruct (build_modules_range today fwt specs Hfwt [] [] modules afss Eb) as [Hm Ha];
    [intros _ [] | intros _ [] |].
  assert (H100 : 100 * qsum (map snd mw) <= 100) by lra.
  split; [|split; [|split; [|split]]].
  - unfold overall_score. destruct (present_sum_bounds mw modules m_score Hmw) as [B0 B1];
      [intros sm Hsm; apply Hm, Hsm|].
    apply py_round1_bounds; lra.
  - unfold prev_overall. destruct (present_sum_bounds mw modules m_prevScore Hmw) as [B0 B1];
      [intros sm Hsm; apply Hm, Hsm|].
    apply py_round1_bounds; lra.
  - destruct (Nat.ltb _ _); [apply py_round1_bounds; apply pct_rank_range | split; lra].
  - exact (overall_ts_range mw fwt modules afss Hmw Hs Hfwt Ha).
  - exact Hm.
Qed.

Lemma insert_desc_perm (x : string * Q) (l : list (string * Q)) :
  Permutation (insert_desc x l) (x :: l).
Proof.
  induction l as [|y l IH]; simpl; [reflexivity|].
  destruct (Qltb (snd x) (snd y)); [|reflexivity].
  rewrite IH. apply perm_swap.
Qed.

Lemma sort_desc_perm (l : list (string * Q)) : Permutation (sort_desc l) l.
Proof.
  induction l as [|x l IH]; simpl; [reflexivity|].
  unfold sort_desc in *. simpl. rewrite insert_desc_perm. apply perm_skip. exact IH.
Qed.

Lemma insert_desc_sorted (x : string * Q) (l : list (string * Q)) :
  StronglySorted (fun a b => snd b <= snd a) l ->
  StronglySorted (fun a b => snd b <= snd a) (insert_desc x l).
Proof.
  induction l as [|y l IH]; intro H; simpl.
  - repeat constructor.
  - apply StronglySorted_inv in H. destruct H as [Hl Hy].
    destruct (Qltb (snd x) (snd y)) eqn:E; [apply Qltb_iff in E | apply Qltb_false in E].
    + constructor; [apply IH; exact Hl|].
      rewrite Forall_forall in Hy |- *. intros z Hz.
      apply (Permutation_in _ (insert_desc_perm x l)) in Hz.
      destruct Hz as [<-|Hz]; [lra | apply Hy; exact Hz].
    + constructor; [constructor; assumption|].
      constructor; [exact E|].
      rewrite Forall_forall in Hy |- *. intros z Hz. specialize (Hy z Hz). lra.
Qed.

Lemma sort_desc_sorted (l : list (string * Q)) :
  StronglySorted (fun a b => snd b <= snd a) (sort_desc l).
Proof.
  induction l as [|x l IH]; [constructor|].
  unfold sort_desc in *. simpl. apply insert_desc_sorted. exact IH.
Qed.

Lemma strongly_sorted_filter {A} (R : A -> A -> Prop) (p : A -> bool) (l : list A) :
  StronglySorted R l -> StronglySorted R (filter p l).
Proof.
  induction l as [|x l IH]; intro H; simpl; [constructor|].
  apply StronglySorted_inv in H. destruct H as [Hl Hx].
  destruct (p x); [|apply IH; exact Hl].
  constructor; [apply IH; exact Hl|].
  rewrite Forall_forall in Hx |- *. intros y Hy. apply filter_In in Hy. apply Hx, Hy.
Qed.

Lemma filter_split_perm {A} (p q : A -> bool) (l : list A) :
  (forall x, p x = true -> q x = false) ->
  Permutation (filter p l ++ filter q l) (filter (fun x => p x || q x) l).
Proof.
  intro Hpq. induction l as [|x l IH]; simpl; [reflexivity|].
  destruct (p x) eqn:Ep.
  - rewrite (Hpq x Ep). simpl. apply perm_skip. exact IH.
  - destruct (q x); simpl; [|exact IH].
    rewrite <- Permutation_middle. apply perm_skip. exact IH.
Qed.

Lemma filter_perm {A} (p : A -> bool) (l1 l2 : list A) :
  Permutation l1 l2 -> Permutation (filter p l1) (filter p l2).
Proof.
  intro H. induction H; simpl.
  - reflexivity.
  - destruct (p x); [apply perm_skip|]; exact IHPermutation.
  - destruct (p x), (p y); try reflexivity; apply perm_swap.
  - etransitivity; eassumption.
Qed.

(** The lift and drag lists of a run are sorted by decreasing points; the
    lift holds only positive points and the drag only negative ones, and
    together they hold, up to order, exactly the contributions whose
    rounded points are not zero (those rounding to [0.00] are in neither
    list). *)
Theorem run_with_lift_drag (today : Z) (mw : list (string * Q))
  (fwt : list (string * list (string * Q)))
  (specs : list (string * (string * list factor_spec))) (d : dashboard)
  (H : run_with today mw fwt specs = Ok d) :
  exists afss,
    build_modules today fwt specs [] [] = Ok (d_modules d, afss) /\
    StronglySorted (fun a b => snd b <= snd a) (d_scoreLift d) /\
    StronglySorted (fun a b => snd b <= snd a) (d_scoreDrag d) /\
    Forall (fun i => 0 < snd i) (d_scoreLift d) /\
    Forall (fun i => snd i < 0) (d_scoreDrag d) /\
    Permutation (d_scoreLift d ++ d_scoreDrag d)
      (filter (fun i => negb (Qeq_bool (snd i) 0)) (lift_drag mw fwt (d_modules d) afss)).
Proof.
  unfold run_with in H.
  destruct (build_modules today fwt specs [] []) as [[modules afss]|e] eqn:Eb;
    cbn [bind] in H; [|discriminate].
  apply Ok_inj in H. subst d. cbn [d_scoreLift d_scoreDrag d_modules].
  exists afss. split; [reflexivity|].
  set (L := sort_desc (lift_drag mw fwt modules afss)).
  split; [apply strongly_sorted_filter, sort_desc_sorted|].
  split; [apply strongly_sorted_filter, sort_desc_sorted|].
  split.
  { rewrite Forall_forall. intros i Hi. apply filter_In in Hi. apply Qltb_iff, Hi. }
  split.
  { rewrite Forall_forall. intros i Hi. apply filter_In in Hi. apply Qltb_iff, Hi. }
  rewrite filter_split_perm.
  - rewrite (filter_ext _ (fun i => negb (Qeq_bool (snd i) 0))).
    + apply filter_perm. apply sort_desc_perm.
    + intros [n v]. simpl.
      destruct (Qeq_bool v 0) eqn:E.
      * apply Qeq_bool_iff in E.
        destruct (Qltb 0 v) eqn:E1; [apply Qltb_iff in E1; lra|].
        destruct (Qltb v 0) eqn:E2; [apply Qltb_iff in E2; lra|]. reflexivity.
      * apply Qeq_bool_neq in E.
        destruct (Qltb 0 v) eqn:E1; [reflexivity|]. apply Qltb_false in E1.
        destruct (Qltb v 0) eqn:E2; [reflexivity|]. apply Qltb_false in E2.
        exfalso. apply E. lra.
  - intros [n v] E. simpl in *. apply Qltb_iff in E. apply Qltb_false. lra.
Qed.

Lemma dict_get_default_vals {V} (P : V -> Prop) (d : list (string * V)) (k : string) (dflt : V) :
  (forall kv, In kv d -> P (snd kv)) -> P dflt -> P (dict_get_default d k dflt).
Proof.
  intros Hd Hdf. unfold dict_get_default.
  destruct (dict_get d k) as [v|] eqn:E; [|exact Hdf].
  apply dict_get_In in E. exact (Hd _ E).
Qed.

Lemma weights_nonneg_check (fw : list (string * Q)) :
  forallb (fun kw => Qle_bool 0 (snd kw)) fw = true -> forall k w, In (k, w) fw -> 0 <= w.
Proof.
  intros H k w Hin. rewrite forallb_forall in H.
  apply Qle_bool_iff. exact (H (k, w) Hin).
Qed.

Lemma FACTOR_WEIGHTS_nonneg (slug : string) :
  forall k w, In (k, w) (dict_get_default FACTOR_WEIGHTS slug []) -> 0 <= w.
Proof.
  apply (dict_get_default_vals (fun fw => forall k w, In (k, w) fw -> 0 <= w)).
  - intros kv Hkv. apply weights_nonneg_check.
    assert (Hc : forallb (fun st => forallb (fun kw => Qle_bool 0 (snd kw)) (snd st))
                   FACTOR_WEIGHTS = true) by (vm_compute; reflexivity).
    rewrite forallb_forall in Hc. exact (Hc kv Hkv).
  - intros k w [].
Qed.

Lemma run_with_range_witness :
  exists d,
    run_with today_ex MODULE_WEIGHTS FACTOR_WEIGHTS (all_specs src_no_external) = Ok d /\
    (forall k w, In (k, w) MODULE_WEIGHTS -> 0 <= w) /\ qsum (map snd MODULE_WEIGHTS) <= 1 /\
    (forall slug k w, In (k, w) (dict_get_default FACTOR_WEIGHTS slug []) -> 0 <= w) /\
    (0 <= d_score d <= 100 /\ 0 <= d_prevScore d <= 100 /\ 0 <= d_percentile5Y d <= 100 /\
     (forall p, In p (d_history d) -> 0 <= snd p <= 100) /\
     (forall sm, In sm (d_modules d) ->
        0 <= m_score (snd sm) <= 100 /\ 0 <= m_prevScore (snd sm) <= 100 /\
        0 <= m_percentile5Y (snd sm) <= 100)).
Proof.
  assert (Hmw : forall k w, In (k, w) MODULE_WEIGHTS -> 0 <= w)
    by (apply weights_nonneg_check; vm_compute; reflexivity).
  assert (Hs : qsum (map snd MODULE_WEIGHTS) <= 1) by (vm_compute; discriminate).
  destruct (run_with today_ex MODULE_WEIGHTS FACTOR_WEIGHTS (all_specs src_no_external))
    as [d|e] eqn:E; [|vm_compute in E; discriminate].
  exists d. split; [reflexivity|]. split; [exact Hmw|]. split; [exact Hs|].
  split; [exact FACTOR_WEIGHTS_nonneg|].
  exact (run_with_range today_ex MODULE_WEIGHTS FACTOR_WEIGHTS (all_specs src_no_external) d E
           Hmw Hs FACTOR_WEIGHTS_nonneg).
Defined.

Lemma run_with_lift_drag_witness :
  exists d,
    run_with today_ex MODULE_WEIGHTS FACTOR_WEIGHTS (all_specs src_no_external) = Ok d /\
    exists afss,
      build_modules today_ex FACTOR_WEIGHTS (all_specs src_no_external) [] []
        = Ok (d_modules d, afss) /\
      StronglySorted (fun a b => snd b <= snd a) (d_scoreLift d) /\
      StronglySorted (fun a b => snd b <= snd a) (d_scoreDrag d) /\
      Forall (fun i => 0 < snd i) (d_scoreLift d) /\
      Forall (fun i => snd i < 0) (d_scoreDrag d) /\
      Permutation (d_scoreLift d ++ d_scoreDrag d)
        (filter (fun i => negb (Qeq_bool (snd i) 0))
           (lift_drag MODULE_WEIGHTS FACTOR_WEIGHTS (d_modules d) afss)).
Proof.
  destruct (run_with today_ex MODULE_WEIGHTS FACTOR_WEIGHTS (all_specs src_no_external))
    as [d|e] eqn:E; [|vm_compute in E; discriminate].
  exists d. split; [reflexivity|].
  exact (run_with_lift_drag today_ex MODULE_WEIGHTS FACTOR_WEIGHTS (all_specs src_no_external) d E).
Defined.

Lemma lift_drag_history_conservation_witness :
  StronglySorted Z.lt ld_dates_ex /\ (9 <= length ld_dates_ex)%nat /\
  (forall x f, In x (present MODULE_WEIGHTS ld_modules_ex) -> In f (scored_of (m_factors (snd x))) ->
     exists ss, dict_get ld_afss_ex (f_id f) = Some ss /\ map fst ss = ld_dates_ex) /\
  (forall x, In x (present MODULE_WEIGHTS ld_modules_ex) ->
     qsum (module_raw_weights (dict_get_default [] (fst (fst x)) [])
                              (scored_of (m_factors (snd x)))) == 1) /\
  qsum (map snd (lift_drag_contribs MODULE_WEIGHTS [] ld_modules_ex ld_afss_ex))
    == last_val (values (overall_ts MODULE_WEIGHTS [] ld_modules_ex ld_afss_ex))
       - iloc_neg 8 (values (overall_ts MODULE_WEIGHTS [] ld_modules_ex ld_afss_ex)).
Proof.
  assert (HD : StronglySorted Z.lt ld_dates_ex).
  { unfold ld_dates_ex. repeat (apply SSorted_cons || apply SSorted_nil);
      repeat (apply Forall_cons || apply Forall_nil); reflexivity. }
  assert (Hl : (9 <= length ld_dates_ex)%nat) by (vm_compute; lia).
  assert (Hh : forall x f, In x (present MODULE_WEIGHTS ld_modules_ex) ->
            In f (scored_of (m_factors (snd x))) ->
            exists ss, dict_get ld_afss_ex (f_id f) = Some ss /\ map fst ss = ld_dates_ex).
  { intros x f Hx Hf. vm_compute in Hx. destruct Hx as [<-|[]].
    vm_compute in Hf. destruct Hf as [<-|[<-|[]]]; eexists; split; vm_compute; reflexivity. }
  assert (Hw : forall x, In x (present MODULE_WEIGHTS ld_modules_ex) ->
            qsum (module_raw_weights (dict_get_default [] (fst (fst x)) [])
                                     (scored_of (m_factors (snd x)))) == 1).
  { intros x Hx. vm_compute in Hx. destruct Hx as [<-|[]]. vm_compute. reflexivity. }
  split; [exact HD|]. split; [exact Hl|]. split; [exact Hh|]. split; [exact Hw|].
  exact (lift_drag_history_conservation MODULE_WEIGHTS [] ld_modules_ex ld_afss_ex ld_dates_ex
           HD Hl Hh Hw).
Defined.

Lemma build_module_obj_scores_witness :
  exists m fss,
    build_module_obj today_ex FACTOR_WEIGHTS "liquidity" "Liquidity" liquidity_specs_ex
      = Ok (Some m, fss) /\
    length (scored_of (m_factors m)) = 2%nat /\
    (10 < length (module_history (dict_get_default FACTOR_WEIGHTS "liquidity" [])
                   (map f_id (scored_of (m_factors m))) fss))%nat /\
    (forall k w, In (k, w) (dict_get_default FACTOR_WEIGHTS "liquidity"%string []) -> 0 <= w) /\
    (0 <= m_score m <= 100 /\ 0 <= m_prevScore m <= 100 /\ 0 <= m_percentile5Y m <= 100) /\
    (m_prevScore m <= m_score m -> 0 <= m_sevenDayChangePct m) /\
    (m_score m <= m_prevScore m -> m_sevenDayChangePct m <= 0) /\
    (forall kv, In kv fss -> forall p, In p (snd kv) -> 0 <= snd p <= 100).
Proof.
  destruct (build_module_obj today_ex FACTOR_WEIGHTS "liquidity" "Liquidity" liquidity_specs_ex)
    as [[[m|] fss]|e] eqn:E;
    [| vm_compute in E; discriminate | vm_compute in E; discriminate].
  pose proof (FACTOR_WEIGHTS_nonneg "liquidity") as Hfw.
  pose proof (build_module_obj_scores today_ex FACTOR_WEIGHTS "liquidity" "Liquidity"
                liquidity_specs_ex m fss E Hfw) as Hs.
  exists m, fss. split; [reflexivity|].
  vm_compute in E. injection E as <- <-.
  split; [vm_compute; reflexivity|].
  split; [apply Nat.ltb_lt; vm_compute; reflexivity|].
  split; [exact Hfw | exact Hs].
Defined.
